(** * Question scanner, image associator and document aggregator of
      [pdf_extractor.py], embedded in Rocq.

    The development follows the methods of [PDFContentExtractor]:
    [clean_text_line], [parse_questions_from_text],
    [_associate_images_with_questions], [extract_page_content] and
    [extract_all_content].

    Text model.  A Python [str] is modelled as a Rocq [string]; a
    character is an 8-bit code point (U+0000 .. U+00FF) and the character
    classes below are Python's [str.isspace], [\s] and [\d] on that range.
    Python integers are unbounded: [int(...)] is modelled in [N], with no
    limit on the number of digits. *)

From Stdlib Require Import Strings.String Strings.Ascii.
From Stdlib Require Import Lists.List Arith.Arith NArith.NArith Bool.Bool.
From Stdlib Require Import micromega.Lia Numbers.DecimalString.
From Stdlib Require Import Numbers.DecimalNat Sorting.Sorted.
Import ListNotations.

Local Open Scope string_scope.
Local Open Scope list_scope.
Local Open Scope nat_scope.

(* ===================================================================== *)
(** ** Python string primitives *)
(* ===================================================================== *)

Module PyStr.

(** [str.isspace] / regex [\s] on code points below 256:
    TAB..CR (9-13), FS..US (28-31), SPACE, NEL (133) and NBSP (160). *)
Definition is_space (c : ascii) : bool :=
  let n := nat_of_ascii c in
  ((9 <=? n) && (n <=? 13)) || ((28 <=? n) && (n <=? 32))
  || (n =? 133) || (n =? 160).

(** regex [\d] on code points below 256: the ASCII digits. *)
Definition is_digit (c : ascii) : bool :=
  let n := nat_of_ascii c in (48 <=? n) && (n <=? 57).

(** regex class [[A-D]]. *)
Definition is_AD (c : ascii) : bool :=
  let n := nat_of_ascii c in (65 <=? n) && (n <=? 68).

(** regex [.] (no DOTALL): anything but a line feed. *)
Definition is_newline (c : ascii) : bool := Ascii.eqb c "010"%char.

Definition is_empty (s : string) : bool :=
  match s with EmptyString => true | String _ _ => false end.

(** Longest prefix whose characters satisfy [p], and what follows it. *)
Fixpoint span (p : ascii -> bool) (s : string) : string * string :=
  match s with
  | EmptyString => (EmptyString, EmptyString)
  | String c s' =>
      if p c then let (a, b) := span p s' in (String c a, b)
      else (EmptyString, s)
  end.

Fixpoint lstrip (s : string) : string :=
  match s with
  | EmptyString => EmptyString
  | String c s' => if is_space c then lstrip s' else s
  end.

Fixpoint rstrip (s : string) : string :=
  match s with
  | EmptyString => EmptyString
  | String c s' =>
      match rstrip s' with
      | EmptyString => if is_space c then EmptyString else String c EmptyString
      | r => String c r
      end
  end.

(** [s.strip()] *)
Definition strip (s : string) : string := rstrip (lstrip s).

(** [s.startswith(p)] *)
Fixpoint startswith (p s : string) : bool :=
  match p with
  | EmptyString => true
  | String a p' =>
      match s with
      | EmptyString => false
      | String b s' => Ascii.eqb a b && startswith p' s'
      end
  end.

(** [s.split(sep)] for a one-character separator: never an empty list. *)
Fixpoint split_char (sep : ascii) (s : string) : list string :=
  match s with
  | EmptyString => [EmptyString]
  | String c s' =>
      if Ascii.eqb c sep then EmptyString :: split_char sep s'
      else match split_char sep s' with
           | [] => [String c EmptyString]
           | w :: ws => String c w :: ws
           end
  end.

(** [s.split()]: the maximal runs of non-whitespace characters.  [cur]
    is the run being read, already known to be of non-whitespace. *)
Fixpoint split_ws_from (cur : string) (s : string) : list string :=
  match s with
  | EmptyString => if is_empty cur then [] else [cur]
  | String c s' =>
      if is_space c
      then (if is_empty cur then split_ws_from EmptyString s'
            else cur :: split_ws_from EmptyString s')
      else split_ws_from (cur ++ String c EmptyString)%string s'
  end.

Definition split_ws (s : string) : list string := split_ws_from EmptyString s.

(** [sep.join(ws)] *)
Definition join (sep : string) (ws : list string) : string := String.concat sep ws.

(** [str.replace] with an empty pattern puts [new] before every
    character and at the end. *)
Fixpoint interleave (new s : string) : string :=
  match s with
  | EmptyString => new
  | String c s' => (new ++ String c (interleave new s'))%string
  end.

(** [s.replace('', new)], the only form of [replace] the extractor uses. *)
Definition replace_empty (new s : string) : string := interleave new s.

(** Prefix of [s] up to, not including, the first line feed: what a
    greedy [.+] or [.*] takes from the start of [s]. *)
Definition upto_newline (s : string) : string :=
  fst (span (fun c => negb (is_newline c)) s).

(** The last character of [s] that is not a line feed, if any. *)
Fixpoint last_non_newline (s : string) : option ascii :=
  match s with
  | EmptyString => None
  | String c s' =>
      match last_non_newline s' with
      | Some d => Some d
      | None => if is_newline c then None else Some c
      end
  end.

(** [int(ds)] for a string of decimal digits. *)
Definition digit_value (c : ascii) : N := N_of_ascii c - 48.

Fixpoint int_of_digits_from (acc : N) (ds : string) : N :=
  match ds with
  | EmptyString => acc
  | String c ds' => int_of_digits_from (10 * acc + digit_value c)%N ds'
  end.

Definition int_of_digits (ds : string) : N := int_of_digits_from 0%N ds.

(** [str(n)] for a natural number. *)
Definition str_of_nat (n : nat) : string :=
  NilEmpty.string_of_uint (Nat.to_uint n).

(** The line feed, as a string. *)
Definition LF : string := String "010" EmptyString.

End PyStr.
Import PyStr.

(* ===================================================================== *)
(** ** The regular expressions of the scanner *)
(* ===================================================================== *)

Module Patterns.

(** A greedy [\[?] at the start of [s].  When it takes the bracket and
    the rest of the pattern fails, the retry without it fails as well,
    since the patterns below then need a letter where the bracket is. *)
Definition skip_open_bracket (s : string) : string :=
  match s with String "["%char s' => s' | _ => s end.

(** A greedy [\]?] or [\.?] at the start of [s]. *)
Definition skip_char (c : ascii) (s : string) : string :=
  match s with
  | String d s' => if Ascii.eqb d c then s' else s
  | EmptyString => s
  end.

(** [re.match(r'^(\d+)\.\s*(.+)', line)], giving groups 1 and 2.  When
    nothing but whitespace follows the period, [\s*] gives characters
    back until [.+] finds one that is not a line feed. *)
Definition question_match (line : string) : option (string * string) :=
  let (ds, r1) := span is_digit line in
  if is_empty ds then None
  else match r1 with
       | String "."%char r2 =>
           let (ws, tail) := span is_space r2 in
           if is_empty tail
           then match last_non_newline ws with
                | Some c => Some (ds, String c EmptyString)
                | None => None
                end
           else Some (ds, upto_newline tail)
       | _ => None
       end.

(** [re.match(r'^\[?[A-D]\]', s)] as a truth value. *)
Definition bracket_letter_match (s : string) : bool :=
  match skip_open_bracket s with
  | String c (String "]"%char _) => is_AD c
  | _ => false
  end.

(** [re.match(r'^\d+\.', s)] as a truth value. *)
Definition number_dot_match (s : string) : bool :=
  let (ds, r) := span is_digit s in
  negb (is_empty ds) && startswith "." r.

(** [re.match(r'^\[?([A-D])\]?\s*(.+)?', line)], giving group 1 and
    group 2, the latter [None] when [(.+)?] takes nothing. *)
Definition option_match (line : string) : option (ascii * option string) :=
  match skip_open_bracket line with
  | String c r =>
      if is_AD c
      then let (_, tail) := span is_space (skip_char "]" r) in
           let g2 := upto_newline tail in
           Some (c, if is_empty g2 then None else Some g2)
      else None
  | EmptyString => None
  end.

(** [r'Ans\.?\s*\[?([A-D])\]?'] matched at the start of [s]. *)
Definition answer_match_here (s : string) : option ascii :=
  match s with
  | String "A"%char (String "n"%char (String "s"%char r)) =>
      let (_, r') := span is_space (skip_char "." r) in
      match skip_open_bracket r' with
      | String c _ => if is_AD c then Some c else None
      | EmptyString => None
      end
  | _ => None
  end.

(** [re.search(r'Ans\.?\s*\[?([A-D])\]?', line)], giving group 1 of the
    leftmost match. *)
Fixpoint answer_search (line : string) : option ascii :=
  match answer_match_here line with
  | Some c => Some c
  | None =>
      match line with
      | EmptyString => None
      | String _ line' => answer_search line'
      end
  end.

End Patterns.
Import Patterns.

(* ===================================================================== *)
(** ** Question records and the scanner *)
(* ===================================================================== *)

(** The dictionary built for each question; the fields are its keys. *)
Record question_record : Type := mkQuestion {
  question_number : option N;
  question : string;
  options : list string;
  answer : option string;
  page : nat;
  images : string;
  option_images : list string
}.

(** The local variables of [parse_questions_from_text] that the main
    loop reads and writes; [current_number] is its [question_number]. *)
Record scan_state : Type := mkState {
  questions : list question_record;
  current_question : option string;
  current_options : list string;
  current_answer : option string;
  current_number : option N
}.

Definition initial_state : scan_state := mkState [] None [] None None.

Definition boilerplate : list string :=
  ["Vedantu"; "LIVE ONLINE TUTORING"; "www.vedantu.com"].

(** [line in lst] *)
Definition mem (line : string) (lst : list string) : bool :=
  existsb (String.eqb line) lst.

(** [if current_question is not None: questions.append({...})] *)
Definition append_current (page_num : nat) (st : scan_state)
  : list question_record :=
  match current_question st with
  | Some q =>
      questions st ++
      [mkQuestion (current_number st) q (current_options st)
                  (current_answer st) (page_num + 1) "" []]
  | None => questions st
  end.

(** The test that ends the inner [while j < len(lines)] loop. *)
Definition stops_continuation (next_line : string) : bool :=
  bracket_letter_match next_line
  || startswith "Ans" next_line
  || number_dot_match next_line
  || mem next_line ["??"; "?"]
  || is_empty next_line.

(** [f"[{option_letter}] {option_text}".strip()] *)
Definition format_option (option_letter : ascii) (option_text : string)
  : string :=
  strip ("[" ++ String option_letter ("] " ++ option_text))%string.

(** The assignments made at a question-start line: the previous
    question is appended to [questions], then the four variables are
    set afresh. *)
Definition start_question (page_num : nat) (st : scan_state)
  (g1 g2 : string) : scan_state :=
  mkState (append_current page_num st) (Some (strip g2)) [] None
          (Some (int_of_digits g1)).

(** [current_question = cur], the effect of the [+=] of the inner loop. *)
Definition set_current_question (st : scan_state) (cur : string)
  : scan_state :=
  mkState (questions st) (Some cur) (current_options st)
          (current_answer st) (current_number st).

(** The main [while i < len(lines)] loop on the lines from index [i] on.
    The inner [fix] is the loop [while j < len(lines)]: it leaves with
    [ls] the lines from index [j] on, where the main loop goes on
    ([i = j - 1] and then [i += 1]). *)
Fixpoint scan_loop (page_num : nat) (st : scan_state) (lines : list string)
  {struct lines} : list question_record :=
  match lines with
  | [] => append_current page_num st
  | l :: rest =>
      let line := strip l in
      if is_empty line || mem line boilerplate
      then scan_loop page_num st rest
      else
        match question_match line with
        | Some (g1, g2) =>
            let st' := start_question page_num st g1 g2 in
            (fix continue (cur : string) (ls : list string) {struct ls}
               : list question_record :=
               match ls with
               | [] =>
                   scan_loop page_num (set_current_question st' cur) ls
               | l' :: ls' =>
                   let next_line := strip l' in
                   if stops_continuation next_line
                   then scan_loop page_num (set_current_question st' cur) ls
                   else continue (cur ++ " " ++ next_line)%string ls'
               end) (strip g2) rest
        | None =>
            match option_match line with
            | Some (option_letter, g2) =>
                let option_text :=
                  match g2 with Some t => t | None => EmptyString end in
                scan_loop page_num
                  (mkState (questions st) (current_question st)
                           (current_options st ++
                            [format_option option_letter option_text])
                           (current_answer st) (current_number st))
                  rest
            | None =>
                if startswith "Ans" line
                then match answer_search line with
                     | Some c =>
                         scan_loop page_num
                           (mkState (questions st) (current_question st)
                                    (current_options st)
                                    (Some (String c EmptyString))
                                    (current_number st))
                           rest
                     | None => scan_loop page_num st rest
                     end
                else scan_loop page_num st rest
            end
        end
  end.

(** [clean_text_line]; both calls of [replace] in the source have an
    empty pattern and an empty replacement. *)
Definition clean_text_line (line : string) : string :=
  let line := join " " (split_ws line) in
  strip (replace_empty "" (replace_empty "" line)).

(** The list comprehension that opens [parse_questions_from_text]. *)
Definition lines_of_text (text : string) : list string :=
  map clean_text_line
      (filter (fun line => negb (is_empty (strip line)))
              (split_char "010" text)).

(** [page_images[a:b]] for [a <= b]. *)
Definition slice {A : Type} (l : list A) (a b : nat) : list A :=
  firstn (b - a) (skipn a l).

Definition set_images (q : question_record) (img : string)
  (opt_imgs : list string) : question_record :=
  mkQuestion (question_number q) (question q) (options q) (answer q)
             (page q) img opt_imgs.

(** The body of [for i, question in enumerate(questions)], from index
    [i] on. *)
Fixpoint associate_from (images_per_question : nat)
  (page_images : list string) (i : nat) (qs : list question_record)
  : list question_record :=
  match qs with
  | [] => []
  | q :: qs' =>
      let start_idx := i * images_per_question in
      let end_idx :=
        Nat.min (start_idx + images_per_question) (length page_images) in
      (if start_idx <? length page_images
       then set_images q (nth start_idx page_images "")
              (if start_idx + 1 <? end_idx
               then slice page_images (start_idx + 1) end_idx
               else [])
       else q)
      :: associate_from images_per_question page_images (S i) qs'
  end.

(** [_associate_images_with_questions]: the dictionaries are updated in
    place, so the model returns the list after the updates. *)
Definition _associate_images_with_questions
  (qs : list question_record) (page_images : list string)
  : list question_record :=
  match qs, page_images with
  | [], _ | _, [] => qs
  | _, _ =>
      let images_per_question :=
        Nat.max 1 (length page_images / length qs) in
      associate_from images_per_question page_images 0 qs
  end.

(** The scan of a page from its cleaned lines. *)
Definition scan_lines (lines : list string) (page_num : nat)
  : list question_record :=
  scan_loop page_num initial_state lines.

Definition parse_lines (lines : list string) (page_images : list string)
  (page_num : nat) : list question_record :=
  let qs := scan_lines lines page_num in
  match qs, page_images with
  | [], _ | _, [] => qs
  | _, _ => _associate_images_with_questions qs page_images
  end.

Definition parse_questions_from_text (text : string)
  (page_images : list string) (page_num : nat) : list question_record :=
  parse_lines (lines_of_text text) page_images page_num.

(* ===================================================================== *)
(** ** The document aggregator *)
(* ===================================================================== *)

(** The outcome of a call that may raise: its value, or the text
    [str(e)] of the exception. *)
Inductive result (A : Type) : Type :=
| Ok (a : A)
| Raise (msg : string).
Arguments Ok {A} a.
Arguments Raise {A} msg.

Definition bind {A B : Type} (r : result A) (k : A -> result B) : result B :=
  match r with
  | Ok a => k a
  | Raise msg => Raise msg
  end.

Notation "x <- r ;; k" := (bind r (fun x => k))
  (at level 61, r at next level, right associativity).

(** [extraction_summary] *)
Record summary : Type := mkSummary {
  total_pages : nat;
  total_questions : nat;
  total_images : nat;
  pages_processed : nat;
  extraction_errors : list string
}.

Section Aggregator.

(** The page content provider: what the two text engines and the image
    extraction return, or raise, for a page, and the page count of the
    open document. *)
Variable extract_text_with_pdfplumber : nat -> result string.
Variable extract_text_from_page : nat -> result string.
Variable extract_images_from_page : nat -> result (list string).
Variable page_count : nat.

Definition extract_page_content (page_num : nat)
  : result (string * list string * list question_record) :=
  page_text <- extract_text_with_pdfplumber page_num ;;
  page_text <- (if is_empty (strip page_text)
                then extract_text_from_page page_num
                else Ok page_text) ;;
  page_images <- extract_images_from_page page_num ;;
  let page_questions :=
    parse_questions_from_text page_text page_images page_num in
  Ok (page_text, page_images, page_questions).

(** f"Error processing page {page_num + 1}: {str(e)}" *)
Definition error_msg (page_num : nat) (e : string) : string :=
  ("Error processing page " ++ str_of_nat (page_num + 1) ++ ": " ++ e)%string.

(** The body of [for page_num in range(self.doc.page_count)], with its
    [try] and [except]. *)
Definition process_page (acc : list question_record * summary)
  (page_num : nat) : list question_record * summary :=
  let (all_questions, s) := acc in
  match extract_page_content page_num with
  | Ok (_, page_images, page_questions) =>
      (all_questions ++ page_questions,
       mkSummary (total_pages s) (total_questions s)
                 (total_images s + length page_images)
                 (pages_processed s + 1) (extraction_errors s))
  | Raise e =>
      (all_questions,
       mkSummary (total_pages s) (total_questions s) (total_images s)
                 (pages_processed s)
                 (extraction_errors s ++ [error_msg page_num e]))
  end.

Definition extract_all_content : list question_record * summary :=
  let (all_questions, s) :=
    fold_left process_page (seq 0 page_count)
              ([], mkSummary page_count 0 0 0 []) in
  (all_questions,
   mkSummary (total_pages s) (length all_questions) (total_images s)
             (pages_processed s) (extraction_errors s)).

(** What a page adds to the outcome of the run. *)
Definition page_failed (page_num : nat) : bool :=
  match extract_page_content page_num with
  | Ok _ => false
  | Raise _ => true
  end.

Definition page_records (page_num : nat) : list question_record :=
  match extract_page_content page_num with
  | Ok (_, _, page_questions) => page_questions
  | Raise _ => []
  end.

Definition page_image_count (page_num : nat) : nat :=
  match extract_page_content page_num with
  | Ok (_, page_images, _) => length page_images
  | Raise _ => 0
  end.

Definition page_errors (page_num : nat) : list string :=
  match extract_page_content page_num with
  | Ok _ => []
  | Raise e => [error_msg page_num e]
  end.

End Aggregator.

(* ===================================================================== *)
(** ** Notions used to state the properties *)
(* ===================================================================== *)

(** The inner loop of the scanner on its own: the question text once the
    continuation lines are appended, and the lines left for the main
    loop. *)
Fixpoint continuation (cur : string) (ls : list string)
  : string * list string :=
  match ls with
  | [] => (cur, [])
  | l' :: ls' =>
      let next_line := strip l' in
      if stops_continuation next_line then (cur, ls)
      else continuation (cur ++ " " ++ next_line)%string ls'
  end.

(** The first test of the main loop: an empty or a boilerplate line. *)
Definition skipped (l : string) : bool :=
  is_empty (strip l) || mem (strip l) boilerplate.

(** A question-start line: the first regular expression matches it. *)
Definition is_question_start (l : string) : bool :=
  match question_match (strip l) with Some _ => true | None => false end.

Definition is_option_line (l : string) : bool :=
  match option_match (strip l) with Some _ => true | None => false end.

(** An answer line: it starts with [Ans] and the search finds a letter. *)
Definition is_answer_line (l : string) : bool :=
  startswith "Ans" (strip l)
  && match answer_search (strip l) with Some _ => true | None => false end.

(** The text the continuation lines [conts] add to a question. *)
(** [current_options.append(o)] and [current_answer = a] as state
    updates. *)
Definition add_option (st : scan_state) (o : string) : scan_state :=
  mkState (questions st) (current_question st) (current_options st ++ [o])
          (current_answer st) (current_number st).

Definition set_answer (st : scan_state) (a : string) : scan_state :=
  mkState (questions st) (current_question st) (current_options st)
          (Some a) (current_number st).

(** Two states that agree on what [append_current] reads first: the
    list built so far and whether a question is open. *)
Definition same_progress (st st' : scan_state) : Prop :=
  questions st' = questions st /\
  current_question st' = current_question st /\
  current_number st' = current_number st.

Definition count_question_starts (lines : list string) : nat :=
  length (filter is_question_start lines).

Definition continues (l : string) : Prop :=
  stops_continuation (strip l) = false.

Fixpoint continuation_text (conts : list string) : string :=
  match conts with
  | [] => EmptyString
  | l :: ls => (" " ++ strip l ++ continuation_text ls)%string
  end.

(** The stop test of the continuation as the specification words it:
    an option line, an answer line, a question-start line or a bare
    question-mark token. *)
Definition spec_stops_continuation (l : string) : bool :=
  is_option_line l || is_answer_line l || is_question_start l
  || mem (strip l) ["?"; "??"].

(** The number of image references a record holds. *)
Definition image_count (q : question_record) : nat :=
  (if is_empty (images q) then 0 else 1) + length (option_images q).

Definition assigned_total (qs : list question_record) : nat :=
  list_sum (map image_count qs).

(** A record as the scanner leaves it, before any image is assigned. *)
Definition no_images (q : question_record) : Prop :=
  images q = EmptyString /\ option_images q = [].

(** What the associator does to the question at index [i]. *)
Definition assign_chunk (k : nat) (page_images : list string) (i : nat)
  (q : question_record) : question_record :=
  if i * k <? length page_images
  then set_images q (nth (i * k) page_images "")
         (slice page_images (i * k + 1)
                (Nat.min (i * k + k) (length page_images)))
  else q.

(** A record fresh from the scanner, and a document of five pages
    whose third page cannot be read, for the examples below. *)
Definition sample_question (number : N) (text : string) : question_record :=
  mkQuestion (Some number) text [] None 1 "" [].

Definition sample_plumber (page_num : nat) : result string :=
  if page_num =? 2 then Raise "no such page"
  else Ok ("1. Question of page " ++ str_of_nat (page_num + 1))%string.

Definition sample_mupdf (page_num : nat) : result string :=
  Ok EmptyString.

Definition sample_images (page_num : nat) : result (list string) :=
  Ok ["img" ++ str_of_nat page_num]%string.

(* ===================================================================== *)
(** ** Further notions *)
(* ===================================================================== *)

Definition chars (s : string) : list ascii := list_ascii_of_string s.

(** A word: a non-empty string without whitespace. *)
Definition no_space (w : string) : bool :=
  forallb (fun c => negb (is_space c)) (chars w).

Definition is_word (w : string) : Prop :=
  w <> EmptyString /\ no_space w = true.

(** What the main loop does to its variables at a line that is no
    question start: the [elif] branches, after the test for empty and
    boilerplate lines. *)
Definition other_step (l : string) (st : scan_state) : scan_state :=
  let line := strip l in
  if is_empty line || mem line boilerplate then st
  else
    match option_match line with
    | Some (option_letter, g2) =>
        add_option st
          (format_option option_letter
             match g2 with Some t => t | None => EmptyString end)
    | None =>
        if startswith "Ans" line
        then match answer_search line with
             | Some c => set_answer st (String c EmptyString)
             | None => st
             end
        else st
    end.

(** The entry an option line adds to [current_options]. *)
Definition option_entry (l : string) : string :=
  match option_match (strip l) with
  | Some (option_letter, g2) =>
      format_option option_letter
        match g2 with Some t => t | None => EmptyString end
  | None => EmptyString
  end.

(** The state [st] with the records [qs] put before its own. *)
Definition prepend_questions (qs : list question_record) (st : scan_state)
  : scan_state :=
  mkState (qs ++ questions st) (current_question st) (current_options st)
          (current_answer st) (current_number st).

(** The fields of a record that the scanner fills. *)
Definition record_core (q : question_record)
  : option N * string * list string * option string * nat :=
  (question_number q, question q, options q, answer q, page q).

(** An entry of [options]: it starts with a letter A-D in brackets. *)
Definition bracketed_letter (o : string) : Prop :=
  exists c t, is_AD c = true /\ o = String "[" (String c (String "]" t)).

(** The image references a record holds, [images] first. *)
Definition image_list (q : question_record) : list string :=
  (if is_empty (images q) then [] else [images q]) ++ option_images q.

(* ===================================================================== *)
(** ** The page content: text engines and images *)
(* ===================================================================== *)

(** [extract_text_with_pdfplumber].  [plumber page_num] is what
    [pdfplumber.open] gives at this call: it raises, or gives the pages,
    each with what its [extract_text()] returns, [None] or a string, or
    raises.  Any exception is caught and the text of PyMuPDF is returned
    in its place. *)
Definition extract_text_with_pdfplumber
  (plumber : nat -> result (list (result (option string))))
  (extract_text_from_page : nat -> result string)
  (page_num : nat) : result string :=
  match plumber page_num with
  | Raise _ => extract_text_from_page page_num
  | Ok pages =>
      match nth_error pages page_num with
      | Some (Ok t) =>
          Ok match t with
             | Some s => if is_empty s then EmptyString else s
             | None => EmptyString
             end
      | Some (Raise _) => extract_text_from_page page_num
      | None => Ok EmptyString
      end
  end.

(** The text of [pdfplumber] for a page when there is one that is not
    blank. *)
Definition plumber_text
  (plumber : nat -> result (list (result (option string))))
  (page_num : nat) : option string :=
  match plumber page_num with
  | Ok pages =>
      match nth_error pages page_num with
      | Some (Ok (Some s)) =>
          if is_empty (strip s) then None else Some s
      | _ => None
      end
  | Raise _ => None
  end.

(** [s.endswith(c)] for a one-character suffix. *)
Fixpoint endswith_char (c : ascii) (s : string) : bool :=
  match s with
  | EmptyString => false
  | String d s' =>
      match s' with
      | EmptyString => Ascii.eqb d c
      | String _ _ => endswith_char c s'
      end
  end.

(** [os.path.join(a, b)] of [posixpath]. *)
Definition path_join (a b : string) : string :=
  if startswith "/" b then b
  else if is_empty a || endswith_char "/" a then (a ++ b)%string
  else (a ++ "/" ++ b)%string.

(** What PyMuPDF knows of an embedded image once its pixmap is made:
    the size, the number of components, and whether writing it as a PNG
    file, directly or after the conversion to RGB, goes through. *)
Module Pix.
Record pixmap : Type := mkPixmap {
  width : nat;
  height : nat;
  n : nat;
  alpha : nat;
  save_ok : bool;
  rgb_save_ok : bool
}.
End Pix.

(** f"page{page_num + 1}_image{img_index + 1}.png" *)
Definition img_filename (page_num img_index : nat) : string :=
  ("page" ++ str_of_nat (page_num + 1) ++ "_image"
   ++ str_of_nat (img_index + 1) ++ ".png")%string.

Definition img_path (images_dir : string) (page_num img_index : nat)
  : string :=
  path_join images_dir (img_filename page_num img_index).

(** The loop [for img_index, img in enumerate(image_list)], from index
    [img_index] on.  An image whose pixmap cannot be made or written is
    passed over by the [except] of the loop body. *)
Fixpoint extract_images_loop (images_dir : string) (page_num : nat)
  (img_index : nat) (image_list : list (result Pix.pixmap)) : list string :=
  match image_list with
  | [] => []
  | img :: rest =>
      let extracted :=
        extract_images_loop images_dir page_num (S img_index) rest in
      match img with
      | Raise _ => extracted
      | Ok pix =>
          if (Pix.width pix <? 20) || (Pix.height pix <? 20) then extracted
          else if (if Pix.n pix - Pix.alpha pix <? 4
                   then Pix.save_ok pix else Pix.rgb_save_ok pix)
               then img_path images_dir page_num img_index :: extracted
               else extracted
      end
  end.

(** [extract_images_from_page]; [get_images page_num] is the image list
    of the page, or the exception of [self.doc[page_num]] or
    [page.get_images()]. *)
Definition extract_images_from_page
  (get_images : nat -> result (list (result Pix.pixmap)))
  (images_dir : string) (page_num : nat) : result (list string) :=
  image_list <- get_images page_num ;;
  Ok (extract_images_loop images_dir page_num 0 image_list).

(** An image that the loop keeps, and the indices of such images in a
    list whose first index is [img_index]. *)
Definition kept (img : result Pix.pixmap) : bool :=
  match img with
  | Raise _ => false
  | Ok pix =>
      negb ((Pix.width pix <? 20) || (Pix.height pix <? 20))
      && (if Pix.n pix - Pix.alpha pix <? 4
          then Pix.save_ok pix else Pix.rgb_save_ok pix)
  end.

Fixpoint kept_indices (img_index : nat) (image_list : list (result Pix.pixmap))
  : list nat :=
  match image_list with
  | [] => []
  | img :: rest =>
      if kept img then img_index :: kept_indices (S img_index) rest
      else kept_indices (S img_index) rest
  end.

(* ===================================================================== *)
(** ** The simple output format *)
(* ===================================================================== *)

(** The values of the dictionary [formatted_q] of [save_to_json]. *)
Inductive json_value : Type :=
| JString (s : string)
| JInt (i : N)
| JStrings (l : list string).

(** [formatted_q]: its keys in the order they are set, each with its
    value.  [q.get(key)] is tested for truth: an empty list, [None], an
    empty string and the number 0 leave the key out. *)
Definition formatted_q (q : question_record) : list (string * json_value) :=
  [("question", JString (question q));
   ("images", JString (images q));
   ("option_images", JStrings (option_images q))]
  ++ (match options q with
      | [] => []
      | _ :: _ => [("options", JStrings (options q))]
      end)
  ++ (match answer q with
      | Some a => if is_empty a then [] else [("answer", JString a)]
      | None => []
      end)
  ++ (match question_number q with
      | Some i => if (i =? 0)%N then [] else [("question_number", JInt i)]
      | None => []
      end)
  ++ (if page q =? 0 then [] else [("page", JInt (N.of_nat (page q)))]).

(** [d[key] = d.get(key, 0) + 1] on a dictionary kept as the list of
    its items in insertion order. *)
Fixpoint dict_incr (key : nat) (d : list (nat * nat)) : list (nat * nat) :=
  match d with
  | [] => [(key, 1)]
  | (k, v) :: d' =>
      if k =? key then (k, v + 1) :: d' else (k, v) :: dict_incr key d'
  end.

(** [d.get(key, 0)] *)
Fixpoint dict_get (key : nat) (d : list (nat * nat)) : nat :=
  match d with
  | [] => 0
  | (k, v) :: d' => if k =? key then v else dict_get key d'
  end.

(** [pages_with_questions] of [generate_report], after its loop. *)
Definition pages_with_questions (qs : list question_record)
  : list (nat * nat) :=
  fold_left (fun d q => dict_incr (page q) d) qs [].

(** A record whose optional fields all show in the output when set. *)
Definition exportable (q : question_record) : Prop :=
  answer q <> Some EmptyString /\
  question_number q <> Some 0%N /\
  question_number q <> None /\
  page q <> 0.

(* ===================================================================== *)
(** ** Facts about strings and the patterns *)
(* ===================================================================== *)

Lemma append_nil_r (s : string) : (s ++ "")%string = s.
Proof. induction s as [|c s IH]; simpl; [reflexivity | now rewrite IH]. Qed.

Lemma append_assoc (a b c : string) :
  ((a ++ b) ++ c)%string = (a ++ (b ++ c))%string.
Proof. induction a as [|x a IH]; simpl; [reflexivity | now rewrite IH]. Qed.

Lemma mem_In (line : string) (lst : list string) :
  mem line lst = true <-> In line lst.
Proof.
  unfold mem. rewrite existsb_exists. split.
  - intros [x [Hin Heq]]. apply String.eqb_eq in Heq. now subst.
  - intros Hin. exists line. split; [assumption | apply String.eqb_refl].
Qed.

(** A line the question pattern matches starts with digits and a period,
    so it ends the continuation of the question before it. *)
Lemma question_match_number_dot (s : string) (p : string * string) :
  question_match s = Some p -> number_dot_match s = true.
Proof.
  unfold question_match, number_dot_match.
  destruct (span is_digit s) as [ds r1].
  destruct (is_empty ds); [discriminate|].
  destruct r1 as [|c r2]; [discriminate|].
  intros H. simpl.
  destruct (Ascii.eqb_spec "." c) as [<-|Hc]; [reflexivity|].
  destruct c as [[] [] [] [] [] [] [] []]; try discriminate H.
  now elim Hc.
Qed.

Lemma question_match_stops (s : string) (p : string * string) :
  question_match s = Some p -> stops_continuation s = true.
Proof.
  intros H. unfold stops_continuation.
  rewrite (question_match_number_dot _ _ H).
  now rewrite !orb_true_r.
Qed.

(** A line that starts with [Ans] starts with the letter A, which the
    option pattern takes as an option letter. *)
Lemma startswith_Ans_option_match (s : string) :
  startswith "Ans" s = true -> option_match s <> None.
Proof.
  destruct s as [|c s]; cbn [startswith]; [discriminate|].
  destruct (Ascii.eqb_spec "A" c) as [<-|]; [|discriminate].
  intros _. unfold option_match. simpl.
  destruct (span is_space (skip_char "]" s)). discriminate.
Qed.

(** Empty and boilerplate lines match none of the patterns. *)
Lemma skipped_not_question_start (l : string) :
  skipped l = true -> question_match (strip l) = None.
Proof.
  unfold skipped. rewrite orb_true_iff. intros [H|H].
  - destruct (strip l); [reflexivity | discriminate].
  - apply mem_In in H. simpl in H.
    destruct H as [<-|[<-|[<-|[]]]]; reflexivity.
Qed.

Section ScanSteps.

Variable page_num : nat.

Lemma scan_loop_nil st :
  scan_loop page_num st [] = append_current page_num st.
Proof. reflexivity. Qed.

Lemma scan_loop_skip st l rest :
  skipped l = true ->
  scan_loop page_num st (l :: rest) = scan_loop page_num st rest.
Proof.
  unfold skipped. intros H. cbn [scan_loop]. rewrite H. reflexivity.
Qed.

Lemma scan_loop_question st l rest g1 g2 :
  skipped l = false ->
  question_match (strip l) = Some (g1, g2) ->
  scan_loop page_num st (l :: rest) =
  scan_loop page_num
    (set_current_question (start_question page_num st g1 g2)
                          (fst (continuation (strip g2) rest)))
    (snd (continuation (strip g2) rest)).
Proof.
  unfold skipped. intros Hs Hq.
  cbn [scan_loop]. rewrite Hs, Hq.
  generalize (strip g2) as cur.
  induction rest as [|l' ls IH]; intros cur.
  - reflexivity.
  - cbn [continuation].
    destruct (stops_continuation (strip l')) eqn:E.
    + reflexivity.
    + apply IH.
Qed.

Lemma question_start_not_skipped l :
  is_question_start l = true -> skipped l = false.
Proof.
  unfold is_question_start. intros H.
  destruct (skipped l) eqn:E; [|reflexivity].
  now rewrite (skipped_not_question_start _ E) in H.
Qed.

(** A line that is neither skipped nor a question start leaves the list
    of questions and the open question as they are. *)
Lemma scan_loop_other st l rest :
  is_question_start l = false ->
  exists st', same_progress st st' /\
    scan_loop page_num st (l :: rest) = scan_loop page_num st' rest.
Proof.
  unfold is_question_start. intros Hq.
  cbn [scan_loop].
  destruct (question_match (strip l)) as [p|]; [discriminate|].
  destruct (is_empty (strip l) || mem (strip l) boilerplate).
  { exists st. now repeat split. }
  destruct (option_match (strip l)) as [[letter g2]|].
  { eexists. split; [|reflexivity]. now repeat split. }
  destruct (startswith "Ans" (strip l)).
  - destruct (answer_search (strip l)).
    + eexists. split; [|reflexivity]. now repeat split.
    + exists st. now repeat split.
  - exists st. now repeat split.
Qed.

Lemma scan_loop_option st l rest letter g2 :
  skipped l = false ->
  question_match (strip l) = None ->
  option_match (strip l) = Some (letter, g2) ->
  scan_loop page_num st (l :: rest) =
  scan_loop page_num
    (add_option st (format_option letter
                      match g2 with Some t => t | None => EmptyString end))
    rest.
Proof.
  unfold skipped. intros Hs Hq Ho.
  cbn [scan_loop]. now rewrite Hs, Hq, Ho.
Qed.


(** What the inner loop does: it takes the longest run [conts] of lines
    on which its test is false, and appends them to the question. *)
Lemma continuation_spec cur ls :
  exists conts,
    ls = conts ++ snd (continuation cur ls) /\
    Forall continues conts /\
    fst (continuation cur ls) = (cur ++ continuation_text conts)%string.
Proof.
  revert cur. induction ls as [|l' ls IH]; intros cur.
  - exists []. cbn. now rewrite append_nil_r.
  - cbn [continuation].
    destruct (stops_continuation (strip l')) eqn:E.
    + exists []. cbn. now rewrite append_nil_r.
    + destruct (IH (cur ++ " " ++ strip l')%string) as (conts & H1 & H2 & H3).
      exists (l' :: conts). repeat split.
      * cbn [app]. f_equal. exact H1.
      * now constructor.
      * rewrite H3. cbn [continuation_text].
        now rewrite !append_assoc.
Qed.

Lemma continuation_app cur conts rest :
  Forall continues conts ->
  (rest = [] \/
   exists l' r, rest = l' :: r /\ stops_continuation (strip l') = true) ->
  continuation cur (conts ++ rest) =
  ((cur ++ continuation_text conts)%string, rest).
Proof.
  intros Hc Hr. revert cur.
  induction Hc as [|l' conts Hl Hc IH]; intros cur.
  - cbn [app continuation_text]. rewrite append_nil_r.
    destruct Hr as [->|(l' & r & -> & Hstop)]; [reflexivity|].
    cbn [continuation]. now rewrite Hstop.
  - cbn [app continuation continuation_text].
    red in Hl. rewrite Hl, IH. now rewrite !append_assoc.
Qed.

Lemma continues_not_question_start l :
  continues l -> is_question_start l = false.
Proof.
  unfold continues, is_question_start. intros H.
  destruct (question_match (strip l)) eqn:E; [|reflexivity].
  now rewrite (question_match_stops _ _ E) in H.
Qed.

Lemma count_question_starts_continues conts rest :
  Forall continues conts ->
  count_question_starts (conts ++ rest) = count_question_starts rest.
Proof.
  unfold count_question_starts.
  induction 1 as [|l conts Hl _ IH]; [reflexivity|].
  cbn [app filter]. now rewrite (continues_not_question_start _ Hl).
Qed.

Lemma append_current_length st :
  length (append_current page_num st) =
  length (questions st) +
  match current_question st with Some _ => 1 | None => 0 end.
Proof.
  unfold append_current. destruct (current_question st).
  - now rewrite length_app.
  - now rewrite Nat.add_0_r.
Qed.

Lemma append_current_same_progress st st' :
  same_progress st st' ->
  length (append_current page_num st') = length (append_current page_num st).
Proof.
  intros (H1 & H2 & _). rewrite !append_current_length. now rewrite H1, H2.
Qed.

Lemma count_question_starts_cons l rest :
  count_question_starts (l :: rest) =
  (if is_question_start l then 1 else 0) + count_question_starts rest.
Proof.
  unfold count_question_starts. cbn [filter].
  now destruct (is_question_start l).
Qed.

(** The number of records of a scan, from any state. *)
Lemma scan_loop_length lines :
  forall st,
    length (scan_loop page_num st lines) =
    length (append_current page_num st) + count_question_starts lines.
Proof.
  remember (length lines) as n eqn:Hn.
  assert (Hle : length lines <= n) by lia. clear Hn.
  revert lines Hle.
  induction n as [|n IH]; intros lines Hle st.
  - destruct lines; [|cbn in Hle; lia].
    cbn. now rewrite Nat.add_0_r.
  - destruct lines as [|l rest].
    { cbn. now rewrite Nat.add_0_r. }
    cbn [length] in Hle.
    rewrite count_question_starts_cons.
    destruct (is_question_start l) eqn:Hq.
    + pose proof (question_start_not_skipped _ Hq) as Hs.
      unfold is_question_start in Hq.
      destruct (question_match (strip l)) as [[g1 g2]|] eqn:Hm;
        [|discriminate].
      rewrite (scan_loop_question _ _ _ _ _ Hs Hm).
      destruct (continuation_spec (strip g2) rest) as (conts & H1 & H2 & _).
      assert (Hc : count_question_starts rest =
                   count_question_starts
                     (snd (continuation (strip g2) rest))).
      { rewrite H1 at 1. now apply count_question_starts_continues. }
      assert (Hl : length rest =
                   length conts +
                   length (snd (continuation (strip g2) rest))).
      { rewrite H1 at 1. apply length_app. }
      rewrite IH by lia.
      rewrite Hc, !append_current_length. cbn.
      rewrite append_current_length. lia.
    + destruct (scan_loop_other st l rest Hq) as (st' & Hp & ->).
      rewrite IH by lia.
      now rewrite (append_current_same_progress _ _ Hp).
Qed.

(** With no question open, the options and the answer gathered so far
    have no effect on the scan. *)
Lemma scan_loop_inactive lines :
  forall st st',
    current_question st = None ->
    same_progress st st' ->
    scan_loop page_num st' lines = scan_loop page_num st lines.
Proof.
  induction lines as [|l rest IH]; intros st st' Hn (H1 & H2 & H3).
  - cbn. unfold append_current. now rewrite H2, Hn, H1.
  - assert (Hac : append_current page_num st' = append_current page_num st).
    { unfold append_current. now rewrite H2, Hn, H1. }
    cbn [scan_loop].
    destruct (is_empty (strip l) || mem (strip l) boilerplate).
    { apply IH; [assumption | now repeat split]. }
    destruct (question_match (strip l)) as [[g1 g2]|].
    { unfold start_question. now rewrite Hac. }
    destruct (option_match (strip l)) as [[letter g2]|].
    { apply IH; [assumption | now repeat split]. }
    destruct (startswith "Ans" (strip l)).
    + destruct (answer_search (strip l)).
      * apply IH; [assumption | now repeat split].
      * apply IH; [assumption | now repeat split].
    + apply IH; [assumption | now repeat split].
Qed.

(** A line that is no question start is dropped or adds an option: the
    branch that sets the answer is never taken, since its guard
    [line.startswith('Ans')] is tested after the option pattern. *)
Lemma scan_loop_not_question st l rest :
  is_question_start l = false ->
  scan_loop page_num st (l :: rest) = scan_loop page_num st rest \/
  exists o,
    scan_loop page_num st (l :: rest) =
    scan_loop page_num (add_option st o) rest.
Proof.
  unfold is_question_start. intros Hq. cbn [scan_loop].
  destruct (question_match (strip l)); [discriminate|].
  destruct (is_empty (strip l) || mem (strip l) boilerplate); [now left|].
  destruct (option_match (strip l)) as [[letter g2]|] eqn:Ho.
  { right. eexists. reflexivity. }
  destruct (startswith "Ans" (strip l)) eqn:Ha; [|now left].
  now elim (startswith_Ans_option_match _ Ha).
Qed.

Lemma scan_loop_no_answer lines :
  forall st,
    current_answer st = None ->
    Forall (fun q => answer q = None) (questions st) ->
    Forall (fun q => answer q = None) (scan_loop page_num st lines).
Proof.
  remember (length lines) as n eqn:Hn.
  assert (Hle : length lines <= n) by lia. clear Hn.
  revert lines Hle.
  induction n as [|n IH]; intros lines Hle st Ha Hq.
  - destruct lines; [|cbn in Hle; lia].
    cbn. unfold append_current. destruct (current_question st); [|assumption].
    apply Forall_app. split; [assumption|]. now repeat constructor.
  - destruct lines as [|l rest].
    { cbn. unfold append_current.
      destruct (current_question st); [|assumption].
      apply Forall_app. split; [assumption|]. now repeat constructor. }
    cbn [length] in Hle.
    destruct (is_question_start l) eqn:Hs.
    + pose proof (question_start_not_skipped _ Hs) as Hk.
      unfold is_question_start in Hs.
      destruct (question_match (strip l)) as [[g1 g2]|] eqn:Hm;
        [|discriminate].
      rewrite (scan_loop_question _ _ _ _ _ Hk Hm).
      destruct (continuation_spec (strip g2) rest) as (conts & H1 & _).
      assert (Hl : length rest =
                   length conts +
                   length (snd (continuation (strip g2) rest))).
      { rewrite H1 at 1. apply length_app. }
      apply IH; [lia | reflexivity |].
      cbn. unfold append_current. destruct (current_question st);
        [|assumption].
      apply Forall_app. split; [assumption|]. now repeat constructor.
    + destruct (scan_loop_not_question st l rest Hs) as [->|[o ->]];
        apply IH; solve [lia | assumption].
Qed.

Lemma append_current_no_images st :
  Forall no_images (questions st) ->
  Forall no_images (append_current page_num st).
Proof.
  intros H. unfold append_current.
  destruct (current_question st); [|assumption].
  apply Forall_app. split; [assumption|].
  constructor; [now split | constructor].
Qed.

(** The scan leaves the image fields of its records empty. *)
Lemma scan_loop_no_images lines :
  forall st,
    Forall no_images (questions st) ->
    Forall no_images (scan_loop page_num st lines).
Proof.
  remember (length lines) as n eqn:Hn.
  assert (Hle : length lines <= n) by lia. clear Hn.
  revert lines Hle.
  induction n as [|n IH]; intros lines Hle st Hq.
  - destruct lines; [|cbn in Hle; lia].
    now apply append_current_no_images.
  - destruct lines as [|l rest]; [now apply append_current_no_images|].
    cbn [length] in Hle.
    destruct (is_question_start l) eqn:Hs.
    + pose proof (question_start_not_skipped _ Hs) as Hk.
      unfold is_question_start in Hs.
      destruct (question_match (strip l)) as [[g1 g2]|] eqn:Hm;
        [|discriminate].
      rewrite (scan_loop_question _ _ _ _ _ Hk Hm).
      destruct (continuation_spec (strip g2) rest) as (conts & H1 & _).
      assert (Hl : length rest =
                   length conts +
                   length (snd (continuation (strip g2) rest))).
      { rewrite H1 at 1. apply length_app. }
      apply IH; [lia|]. cbn. now apply append_current_no_images.
    + destruct (scan_loop_other st l rest Hs) as (st' & (Hp & _) & ->).
      apply IH; [lia|]. now rewrite Hp.
Qed.

End ScanSteps.

(* ===================================================================== *)
(** ** Facts about the image associator *)
(* ===================================================================== *)

Section Associator.

Variable page_images : list string.
Variable k : nat.

Lemma slice_empty {A : Type} (l : list A) (a b : nat) :
  b <= a -> slice l a b = [].
Proof.
  intros H. unfold slice. now replace (b - a) with 0 by lia.
Qed.

Lemma slice_cons {A : Type} (d : A) (l : list A) (a b : nat) :
  a < length l -> a < b ->
  slice l a b = nth a l d :: slice l (a + 1) b.
Proof.
  unfold slice. revert a b.
  induction l as [|x l IH]; intros a b Ha Hb; [cbn in Ha; lia|].
  destruct a as [|a].
  - cbn [skipn nth]. destruct b as [|b]; [lia|].
    cbn. now rewrite Nat.sub_0_r.
  - cbn [length] in Ha. destruct b as [|b]; [lia|].
    cbn [skipn nth Nat.add Nat.sub]. apply IH; lia.
Qed.

Lemma slice_length {A : Type} (l : list A) (a b : nat) :
  b <= length l -> length (slice l a b) = b - a.
Proof.
  intros H. unfold slice. rewrite length_firstn, length_skipn. lia.
Qed.

(** The loop body in terms of [assign_chunk]: the two branches on
    [end_idx > start_idx + 1] give the same slice. *)
Lemma associate_from_cons i q qs :
  associate_from k page_images i (q :: qs) =
  assign_chunk k page_images i q :: associate_from k page_images (S i) qs.
Proof.
  cbn [associate_from]. f_equal. unfold assign_chunk.
  destruct (i * k <? length page_images); [|reflexivity].
  destruct (i * k + 1 <? Nat.min (i * k + k) (length page_images)) eqn:E;
    [reflexivity|].
  apply Nat.ltb_ge in E. now rewrite slice_empty.
Qed.

Lemma associate_from_length i qs :
  length (associate_from k page_images i qs) = length qs.
Proof.
  revert i. induction qs as [|q qs IH]; intros i; [reflexivity|].
  rewrite associate_from_cons. cbn [length]. now rewrite IH.
Qed.

Lemma associate_from_nth_error qs :
  forall i0 i,
    nth_error (associate_from k page_images i0 qs) i =
    option_map (assign_chunk k page_images (i0 + i)) (nth_error qs i).
Proof.
  induction qs as [|q qs IH]; intros i0 i.
  - now destruct i.
  - rewrite associate_from_cons. destruct i as [|i].
    + cbn. now rewrite Nat.add_0_r.
    + cbn [nth_error]. rewrite IH. now rewrite Nat.add_succ_comm.
Qed.

(** The chunk of a question: its first entry is [images], the others
    are [option_images]. *)
Lemma assign_chunk_slice i q :
  1 <= k -> i * k < length page_images ->
  let q' := assign_chunk k page_images i q in
  images q' :: option_images q' =
  slice page_images (i * k) (Nat.min (i * k + k) (length page_images)).
Proof.
  intros Hk Hlt. unfold assign_chunk.
  apply Nat.ltb_lt in Hlt as Hb. rewrite Hb. cbn [set_images images option_images].
  symmetry. apply slice_cons; [assumption | lia].
Qed.

Lemma image_count_assign_chunk i q :
  1 <= k -> no_images q ->
  Forall (fun img => img <> EmptyString) page_images ->
  image_count (assign_chunk k page_images i q) =
  Nat.min (i * k + k) (length page_images)
  - Nat.min (i * k) (length page_images).
Proof.
  intros Hk [Hi Ho] Hne. unfold assign_chunk.
  destruct (i * k <? length page_images) eqn:E.
  - apply Nat.ltb_lt in E. unfold image_count.
    cbn [set_images images option_images].
    rewrite slice_length by lia.
    assert (Hn : nth (i * k) page_images "" <> EmptyString).
    { rewrite Forall_forall in Hne. apply Hne. now apply nth_In. }
    destruct (nth (i * k) page_images ""); [now elim Hn|].
    cbn [is_empty]. lia.
  - apply Nat.ltb_ge in E. unfold image_count. rewrite Hi, Ho. cbn. lia.
Qed.

Lemma assigned_total_cons q qs :
  assigned_total (q :: qs) = image_count q + assigned_total qs.
Proof. reflexivity. Qed.

Lemma assigned_total_associate_from qs :
  1 <= k -> Forall no_images qs ->
  Forall (fun img => img <> EmptyString) page_images ->
  forall i,
    assigned_total (associate_from k page_images i qs) =
    Nat.min ((i + length qs) * k) (length page_images)
    - Nat.min (i * k) (length page_images).
Proof.
  intros Hk Hq Hne.
  induction Hq as [|q qs Hq1 Hq IH]; intros i.
  - cbn. rewrite Nat.add_0_r. lia.
  - rewrite associate_from_cons, assigned_total_cons. cbn [length].
    rewrite IH, (image_count_assign_chunk _ _ Hk Hq1 Hne).
    replace ((i + S (length qs)) * k) with ((S i + length qs) * k)
      by (f_equal; lia).
    replace (S i * k) with (i * k + k) by (cbn; lia).
    assert (i * k + k <= (S i + length qs) * k) by nia.
    lia.
Qed.

End Associator.

(* ===================================================================== *)
(** ** Facts about the document aggregator *)
(* ===================================================================== *)

Section AggregatorFacts.

Variable extract_text_with_pdfplumber : nat -> result string.
Variable extract_text_from_page : nat -> result string.
Variable extract_images_from_page : nat -> result (list string).

Let content :=
  extract_page_content extract_text_with_pdfplumber extract_text_from_page
                       extract_images_from_page.
Let step :=
  process_page extract_text_with_pdfplumber extract_text_from_page
               extract_images_from_page.
Let failed :=
  page_failed extract_text_with_pdfplumber extract_text_from_page
              extract_images_from_page.
Let records :=
  page_records extract_text_with_pdfplumber extract_text_from_page
               extract_images_from_page.
Let image_total :=
  page_image_count extract_text_with_pdfplumber extract_text_from_page
                   extract_images_from_page.
Let errors :=
  page_errors extract_text_with_pdfplumber extract_text_from_page
              extract_images_from_page.

(** A page that raises adds its message and nothing else. *)
Lemma process_page_raise all_questions s page_num e :
  content page_num = Raise e ->
  step (all_questions, s) page_num =
  (all_questions,
   mkSummary (total_pages s) (total_questions s) (total_images s)
             (pages_processed s)
             (extraction_errors s ++ [error_msg page_num e])).
Proof.
  unfold step, process_page, content. now intros ->.
Qed.

(** The loop over any list of pages, from any state. *)
Lemma fold_process_page pages :
  forall all_questions s,
    let r := fold_left step pages (all_questions, s) in
    fst r = all_questions ++ flat_map records pages /\
    extraction_errors (snd r) =
      extraction_errors s ++ flat_map errors pages /\
    pages_processed (snd r) =
      pages_processed s + length (filter (fun p => negb (failed p)) pages) /\
    total_images (snd r) =
      total_images s + list_sum (map image_total pages) /\
    total_pages (snd r) = total_pages s.
Proof.
  induction pages as [|p pages IH]; intros all_questions s.
  - cbn. rewrite !app_nil_r, !Nat.add_0_r. now repeat split.
  - cbn [fold_left flat_map filter map].
    specialize (IH (fst (step (all_questions, s) p))
                   (snd (step (all_questions, s) p))).
    rewrite <- surjective_pairing in IH.
    destruct IH as (H1 & H2 & H3 & H4 & H5).
    cbv zeta. rewrite H1, H2, H3, H4, H5.
    unfold step, process_page, records, page_records, errors, page_errors,
      failed, page_failed, image_total, page_image_count.
    destruct (extract_page_content _ _ _ p) as [[[t imgs] qs]|e];
      cbn [fst snd total_pages total_images pages_processed
           extraction_errors negb length app];
      rewrite <- ?app_assoc, ?app_nil_r; cbn [list_sum fold_right app];
      repeat split; try reflexivity; unfold list_sum; lia.
Qed.

End AggregatorFacts.

(* ===================================================================== *)
(** ** The scanner: properties *)
(* ===================================================================== *)

Lemma associate_images_length qs page_images :
  length (_associate_images_with_questions qs page_images) = length qs.
Proof.
  unfold _associate_images_with_questions.
  destruct qs as [|q qs]; [reflexivity|].
  destruct page_images as [|img imgs]; [reflexivity|].
  apply associate_from_length.
Qed.

Lemma parse_lines_length lines page_images page_num :
  length (parse_lines lines page_images page_num) =
  length (scan_lines lines page_num).
Proof.
  unfold parse_lines.
  destruct (scan_lines lines page_num) as [|q qs]; [reflexivity|].
  destruct page_images as [|img imgs]; [reflexivity|].
  apply associate_images_length.
Qed.

(** C1, as the code behaves.  On the lines of Scenario 1 the scanner does
    not record the answer B: the line [Ans. [B]] starts with the letter
    A, so the option pattern, tried before the answer test, takes it as
    a third option, and the answer stays [None]. *)
Theorem scenario_1_answer_line_becomes_option :
  parse_questions_from_text
    (join LF ["1. What is 2+2?"; "[A] 3"; "[B] 4"; "Ans. [B]"]) [] 0 =
  [mkQuestion (Some 1%N) "What is 2+2?"
              ["[A] 3"; "[B] 4"; "[A] ns. [B]"] None 1 "" []].
Proof. vm_compute. reflexivity. Qed.

(** No scan of any page gives a record with an answer. *)
Lemma scan_lines_no_answer lines page_num :
  Forall (fun q => answer q = None) (scan_lines lines page_num).
Proof.
  apply scan_loop_no_answer; [reflexivity | constructor].
Qed.

(** C2, as stated, fails: the line [B Paris] is an option line, yet the
    continuation of question 1 does not stop at it and takes it into the
    question text. *)
Lemma bare_letter_option_line_is_continued :
  spec_stops_continuation "B Paris" = true /\
  continuation "Capital of France?" ["B Paris"] =
    ("Capital of France? B Paris", []) /\
  scan_lines ["1. Capital of France?"; "B Paris"] 0 =
    [mkQuestion (Some 1%N) "Capital of France? B Paris" [] None 1 "" []].
Proof. vm_compute. repeat split; reflexivity. Qed.

(** C2, amended.  After a question-start line the scanner appends, each
    after a space, the lines [conts] that follow it for as long as the
    test [stops_continuation] is false on them, and goes on with the
    first line on which it is true, or stops at the end of the lines of
    the page.  The test is true on an empty line, on [?] and [??], on a
    line that starts with [Ans], on one that starts with digits and a
    period, and on one that starts with a letter A-D and a closing
    bracket, with or without an opening bracket before the letter. *)
Theorem continuation_stops_exactly page_num st l g1 g2 conts rest :
  question_match (strip l) = Some (g1, g2) ->
  Forall continues conts ->
  (rest = [] \/
   exists l' r, rest = l' :: r /\ stops_continuation (strip l') = true) ->
  scan_loop page_num st (l :: conts ++ rest) =
  scan_loop page_num
    (mkState (append_current page_num st)
             (Some (strip g2 ++ continuation_text conts)%string)
             [] None (Some (int_of_digits g1)))
    rest.
Proof.
  intros Hm Hc Hr.
  assert (Hs : skipped l = false).
  { apply question_start_not_skipped. unfold is_question_start.
    now rewrite Hm. }
  rewrite (scan_loop_question _ _ _ _ _ _ Hs Hm).
  now rewrite (continuation_app _ _ _ Hc Hr).
Qed.

Lemma continuation_stops_exactly_witness :
  scan_loop 0 initial_state
    ("1. Look at the figure." :: ["What shape?"; "B Paris"] ++ ["[A] Circle"])
  = scan_loop 0
      (mkState [] (Some "Look at the figure. What shape? B Paris") [] None
               (Some 1%N))
      ["[A] Circle"].
Proof.
  apply (continuation_stops_exactly 0 initial_state
           "1. Look at the figure." "1" "Look at the figure."
           ["What shape?"; "B Paris"] ["[A] Circle"]).
  - reflexivity.
  - repeat constructor.
  - right. exists "[A] Circle", []. split; reflexivity.
Defined.

(** C5.  The number of records of a page is the number of its
    question-start lines; with none of them there is no record. *)
Theorem record_count_is_question_start_count lines page_images page_num :
  length (parse_lines lines page_images page_num) =
  count_question_starts lines.
Proof.
  rewrite parse_lines_length. unfold scan_lines.
  now rewrite scan_loop_length.
Qed.

(** C6, as the code behaves.  A boilerplate line that follows a
    question-start line is read by the inner loop, which does not test
    for boilerplate, and ends up in the question text. *)
Theorem boilerplate_line_joins_question_text :
  parse_questions_from_text
    (join LF ["1. What is 2+2?"; "Vedantu"; "[A] 3"]) [] 0 =
  [mkQuestion (Some 1%N) "What is 2+2? Vedantu" ["[A] 3"] None 1 "" []].
Proof. vm_compute. reflexivity. Qed.

(** In the main loop a boilerplate line is passed over. *)
Lemma boilerplate_skipped_by_main_loop page_num st l rest :
  In (strip l) boilerplate ->
  scan_loop page_num st (l :: rest) = scan_loop page_num st rest.
Proof.
  intros H. apply scan_loop_skip. unfold skipped.
  apply mem_In in H. rewrite H. apply orb_true_r.
Qed.





(** C10.  Lines before the first question-start line of a page, option
    and answer lines among them, leave no trace in the records. *)
Theorem stray_lines_before_first_question_dropped
  pre rest page_images page_num :
  Forall (fun l => is_question_start l = false) pre ->
  parse_lines (pre ++ rest) page_images page_num =
  parse_lines rest page_images page_num.
Proof.
  intros Hpre. unfold parse_lines, scan_lines.
  assert (H : forall st, current_question st = None ->
                scan_loop page_num st (pre ++ rest) =
                scan_loop page_num st rest).
  { induction Hpre as [|l pre Hl _ IH]; intros st Hn; [reflexivity|].
    cbn [app].
    destruct (scan_loop_other page_num st l (pre ++ rest) Hl)
      as (st' & Hp & ->).
    assert (Hn' : current_question st' = None).
    { destruct Hp as (_ & -> & _). exact Hn. }
    rewrite (IH st' Hn').
    now apply scan_loop_inactive. }
  now rewrite (H initial_state eq_refl).
Qed.

Lemma stray_lines_before_first_question_dropped_witness :
  parse_lines (["[C] stray"; "Ans. [D]"] ++ ["1. x"; "[A] y"]) ["img"] 0 =
  parse_lines ["1. x"; "[A] y"] ["img"] 0.
Proof.
  apply (stray_lines_before_first_question_dropped
           ["[C] stray"; "Ans. [D]"] ["1. x"; "[A] y"] ["img"] 0).
  repeat constructor.
Defined.

(* ===================================================================== *)
(** ** The image associator: properties *)
(* ===================================================================== *)

Lemma associate_images_nonempty q qs img imgs :
  _associate_images_with_questions (q :: qs) (img :: imgs) =
  associate_from
    (Nat.max 1 (length (img :: imgs) / length (q :: qs)))
    (img :: imgs) 0 (q :: qs).
Proof. reflexivity. Qed.

Lemma assigned_total_no_images qs :
  Forall no_images qs -> assigned_total qs = 0.
Proof.
  induction 1 as [|q qs [Hi Ho] _ IH]; [reflexivity|].
  rewrite assigned_total_cons, IH. unfold image_count.
  now rewrite Hi, Ho.
Qed.

(** C3.  With [k = max(1, n // m)] the question at index [i] gets the
    slice of the image list from [i*k] to [min(i*k+k, n)]: the first
    entry as [images], the others, in order, as [option_images]; a
    question with [i*k >= n] is left as it is, and so is every question
    when there is no question or no image.  With two questions and three
    images the third image goes to neither question. *)
Theorem image_chunk_of_each_question qs page_images i q :
  nth_error qs i = Some q ->
  page_images <> [] ->
  let n := length page_images in
  let k := Nat.max 1 (n / length qs) in
  let q' := assign_chunk k page_images i q in
  nth_error (_associate_images_with_questions qs page_images) i = Some q' /\
  (i * k < n ->
   images q' :: option_images q' =
   slice page_images (i * k) (Nat.min (i * k + k) n)) /\
  (n <= i * k -> q' = q) /\
  _associate_images_with_questions [] page_images = [] /\
  _associate_images_with_questions qs [] = qs /\
  (forall q0 q1 a b c,
     _associate_images_with_questions [q0; q1] [a; b; c] =
     [set_images q0 a []; set_images q1 b []]).
Proof.
  intros Hq Hne n k q'.
  destruct qs as [|q0 qs]; [now destruct i|].
  destruct page_images as [|img imgs]; [now elim Hne|].
  repeat split.
  - rewrite associate_images_nonempty.
    rewrite associate_from_nth_error, Hq. reflexivity.
  - intros Hlt. apply assign_chunk_slice; [apply Nat.le_max_l | exact Hlt].
  - intros Hge. unfold q', assign_chunk.
    apply Nat.ltb_ge in Hge. fold n. now rewrite Hge.
Qed.

Lemma image_chunk_of_each_question_witness :
  nth_error
    (_associate_images_with_questions
       [sample_question 1 "x"; sample_question 2 "y"]
       ["img0"; "img1"; "img2"]) 1
  = Some (set_images (sample_question 2 "y") "img1" []).
Proof.
  apply (image_chunk_of_each_question
           [sample_question 1 "x"; sample_question 2 "y"]
           ["img0"; "img1"; "img2"] 1 (sample_question 2 "y")).
  - reflexivity.
  - discriminate.
Defined.

(** C4, as stated, fails: with three questions and two images both
    images are assigned, while the formula counts two dropped ones. *)
Lemma conservation_fails_with_fewer_images :
  assigned_total
    (_associate_images_with_questions
       [sample_question 1 "x"; sample_question 2 "y"; sample_question 3 "z"]
       ["img0"; "img1"])
  + (2 - 3 * (2 / 3)) <> 2.
Proof. vm_compute. discriminate. Qed.

(** The number of images the associator hands out. *)
Lemma assigned_total_associate qs page_images :
  qs <> [] ->
  Forall no_images qs ->
  Forall (fun img => img <> EmptyString) page_images ->
  assigned_total (_associate_images_with_questions qs page_images) =
  Nat.min (length page_images)
          (length qs * Nat.max 1 (length page_images / length qs)).
Proof.
  intros Hne Hq Hi.
  destruct qs as [|q0 qs']; [now elim Hne|].
  destruct page_images as [|img imgs].
  - cbn [_associate_images_with_questions].
    now rewrite (assigned_total_no_images _ Hq).
  - rewrite associate_images_nonempty.
    rewrite assigned_total_associate_from;
      [| apply Nat.le_max_l | assumption | assumption].
    cbn [Nat.add Nat.mul]. lia.
Qed.

(** C4, amended.  For [m >= 1] questions fresh from the scanner and [n]
    images, the number of images assigned is [min(n, m*k)] with
    [k = max(1, n // m)].  When [n >= m] this is [m * (n // m)], so
    [sum + dropped = n] with [dropped = n - m*(n // m) < m]; when
    [n < m] every image is assigned. *)
Theorem assigned_images_conservation qs page_images :
  qs <> [] ->
  Forall no_images qs ->
  Forall (fun img => img <> EmptyString) page_images ->
  let m := length qs in
  let n := length page_images in
  let total :=
    assigned_total (_associate_images_with_questions qs page_images) in
  total = Nat.min n (m * Nat.max 1 (n / m)) /\
  (m <= n -> total + (n - m * (n / m)) = n /\ n - m * (n / m) < m) /\
  (n < m -> total = n).
Proof.
  intros Hne Hq Hi m n total.
  assert (Hm : 1 <= m).
  { unfold m. destruct qs; [now elim Hne | cbn; lia]. }
  assert (Ht : total = Nat.min n (m * Nat.max 1 (n / m))).
  { now apply assigned_total_associate. }
  split; [exact Ht|]. split.
  - intros Hle.
    assert (Hd : 1 <= n / m) by (apply Nat.div_le_lower_bound; lia).
    pose proof (Nat.Div0.mul_div_le n m) as Hmul.
    pose proof (Nat.div_mod_eq n m) as Hdm.
    pose proof (Nat.mod_upper_bound n m ltac:(lia)) as Hub.
    rewrite Ht. replace (Nat.max 1 (n / m)) with (n / m) by lia.
    lia.
  - intros Hlt. rewrite Ht, (Nat.div_small n m Hlt). cbn [Nat.max]. lia.
Qed.

(** The same count for a page, from its lines. *)
Lemma page_assigned_images lines page_images page_num :
  Forall (fun img => img <> EmptyString) page_images ->
  let m := count_question_starts lines in
  let n := length page_images in
  1 <= m ->
  assigned_total (parse_lines lines page_images page_num) =
  Nat.min n (m * Nat.max 1 (n / m)).
Proof.
  intros Hi m n Hm.
  assert (Hlen : length (scan_lines lines page_num) = m).
  { unfold scan_lines. now rewrite scan_loop_length. }
  assert (Hfresh : Forall no_images (scan_lines lines page_num)).
  { apply scan_loop_no_images. constructor. }
  assert (Hne : scan_lines lines page_num <> []).
  { intros E. rewrite E in Hlen. cbn in Hlen. lia. }
  assert (Hp : parse_lines lines page_images page_num =
               _associate_images_with_questions
                 (scan_lines lines page_num) page_images).
  { unfold parse_lines.
    destruct (scan_lines lines page_num); [reflexivity|].
    now destruct page_images. }
  rewrite Hp, (assigned_total_associate _ _ Hne Hfresh Hi).
  now rewrite Hlen.
Qed.

Lemma assigned_images_conservation_witness :
  assigned_total
    (_associate_images_with_questions
       [sample_question 1 "x"; sample_question 2 "y"]
       ["img0"; "img1"; "img2"; "img3"; "img4"])
  = Nat.min 5 (2 * Nat.max 1 (5 / 2)).
Proof.
  apply (assigned_images_conservation
           [sample_question 1 "x"; sample_question 2 "y"]
           ["img0"; "img1"; "img2"; "img3"; "img4"]).
  - discriminate.
  - repeat constructor.
  - repeat constructor; discriminate.
Defined.

(* ===================================================================== *)
(** ** The document aggregator: properties *)
(* ===================================================================== *)

Section AggregatorRun.

Variable extract_text_with_pdfplumber : nat -> result string.
Variable extract_text_from_page : nat -> result string.
Variable extract_images_from_page : nat -> result (list string).
Variable page_count : nat.

Let content :=
  extract_page_content extract_text_with_pdfplumber extract_text_from_page
                       extract_images_from_page.
Let step :=
  process_page extract_text_with_pdfplumber extract_text_from_page
               extract_images_from_page.
Let failed :=
  page_failed extract_text_with_pdfplumber extract_text_from_page
              extract_images_from_page.
Let records :=
  page_records extract_text_with_pdfplumber extract_text_from_page
               extract_images_from_page.
Let image_total :=
  page_image_count extract_text_with_pdfplumber extract_text_from_page
                   extract_images_from_page.
Let errors :=
  page_errors extract_text_with_pdfplumber extract_text_from_page
              extract_images_from_page.
Let run :=
  extract_all_content extract_text_with_pdfplumber extract_text_from_page
                      extract_images_from_page page_count.

Lemma errors_length pages :
  length (flat_map errors pages) = length (filter failed pages).
Proof.
  induction pages as [|p pages IH]; [reflexivity|].
  cbn [flat_map filter]. rewrite length_app, IH.
  unfold errors, page_errors, failed, page_failed.
  now destruct (extract_page_content _ _ _ p).
Qed.

Lemma failed_or_processed pages :
  length (filter (fun p => negb (failed p)) pages)
  + length (filter failed pages) = length pages.
Proof.
  induction pages as [|p pages IH]; [reflexivity|].
  cbn [filter]. destruct (failed p); cbn [negb length]; lia.
Qed.

(** The outcome of the run, page by page. *)
Lemma extract_all_content_spec :
  fst run = flat_map records (seq 0 page_count) /\
  extraction_errors (snd run) = flat_map errors (seq 0 page_count) /\
  pages_processed (snd run) =
    length (filter (fun p => negb (failed p)) (seq 0 page_count)) /\
  total_images (snd run) = list_sum (map image_total (seq 0 page_count)) /\
  total_pages (snd run) = page_count /\
  total_questions (snd run) = length (fst run).
Proof.
  unfold run, extract_all_content.
  pose proof (fold_process_page extract_text_with_pdfplumber
                extract_text_from_page extract_images_from_page
                (seq 0 page_count) [] (mkSummary page_count 0 0 0 []))
    as H. cbv zeta in H.
  destruct (fold_left _ (seq 0 page_count) _) as [all_questions s].
  cbn [fst snd total_pages total_questions total_images pages_processed
       extraction_errors app Nat.add] in *.
  destruct H as (H1 & H2 & H3 & H4 & H5). now repeat split.
Qed.

(** C7.  When the processing of a page raises, the message that names
    the page is in the error list, the page adds no question, no image
    and no processed page, and the run goes on: every page is either
    processed or in the error list, the records of the pages that did
    not fail are all there in page order, and [total_questions] is the
    number of records. *)
Theorem failed_page_is_recorded_and_skipped page_num e :
  page_num < page_count ->
  content page_num = Raise e ->
  In (error_msg page_num e) (extraction_errors (snd run)) /\
  (forall all_questions s,
     step (all_questions, s) page_num =
     (all_questions,
      mkSummary (total_pages s) (total_questions s) (total_images s)
                (pages_processed s)
                (extraction_errors s ++ [error_msg page_num e]))) /\
  records page_num = [] /\ image_total page_num = 0 /\
  pages_processed (snd run) + length (extraction_errors (snd run))
    = page_count /\
  pages_processed (snd run) =
    length (filter (fun p => negb (failed p)) (seq 0 page_count)) /\
  fst run = flat_map records (seq 0 page_count) /\
  total_images (snd run) = list_sum (map image_total (seq 0 page_count)) /\
  total_questions (snd run) = length (fst run).
Proof.
  intros Hlt He.
  destruct extract_all_content_spec as (H1 & H2 & H3 & H4 & _ & H6).
  repeat split; try assumption.
  - rewrite H2. apply in_flat_map. exists page_num. split.
    + apply in_seq. lia.
    + unfold errors, page_errors. fold content. rewrite He. now left.
  - intros all_questions s. now apply process_page_raise.
  - unfold records, page_records. fold content. now rewrite He.
  - unfold image_total, page_image_count. fold content. now rewrite He.
  - rewrite H3, H2, errors_length, failed_or_processed. apply length_seq.
Qed.

End AggregatorRun.

(** Scenario 5: of five pages the third fails. *)
Lemma failed_page_is_recorded_and_skipped_witness :
  In "Error processing page 3: no such page"
     (extraction_errors
        (snd (extract_all_content sample_plumber sample_mupdf
                                  sample_images 5))) /\
  pages_processed
    (snd (extract_all_content sample_plumber sample_mupdf sample_images 5))
  + length
      (extraction_errors
         (snd (extract_all_content sample_plumber sample_mupdf
                                   sample_images 5)))
  = 5.
Proof.
  destruct (failed_page_is_recorded_and_skipped
              sample_plumber sample_mupdf sample_images 5 2 "no such page")
    as (H1 & _ & _ & _ & H2 & _).
  - lia.
  - reflexivity.
  - split; [exact H1 | exact H2].
Defined.

Example scenario_5 :
  let r := extract_all_content sample_plumber sample_mupdf sample_images 5 in
  pages_processed (snd r) = 4 /\
  extraction_errors (snd r) = ["Error processing page 3: no such page"] /\
  map page (fst r) = [1; 2; 4; 5] /\
  total_questions (snd r) = 4 /\
  total_images (snd r) = 4.
Proof. vm_compute. repeat split; reflexivity. Qed.

(* ===================================================================== *)
(** ** Stripping, splitting and joining *)
(* ===================================================================== *)

Section StringFacts.

Lemma span_spec (p : ascii -> bool) (s : string) :
  let (a, b) := span p s in
  s = (a ++ b)%string /\
  forallb p (list_ascii_of_string a) = true /\
  match b with
  | EmptyString => True
  | String c _ => p c = false
  end.
Proof.
  induction s as [|c s IH]; cbn [span].
  - now repeat split.
  - destruct (p c) eqn:E.
    + destruct (span p s) as [a b]. destruct IH as (H1 & H2 & H3).
      cbn. rewrite E, H2. now rewrite <- H1.
    + now repeat split.
Qed.

Lemma rstrip_cons_keep c s :
  is_space c = false -> rstrip (String c s) = String c (rstrip s).
Proof.
  intros H. cbn [rstrip]. destruct (rstrip s); [now rewrite H | reflexivity].
Qed.

Lemma rstrip_idempotent s : rstrip (rstrip s) = rstrip s.
Proof.
  induction s as [|c s IH]; [reflexivity|].
  cbn [rstrip]. destruct (rstrip s) as [|d r] eqn:E.
  - destruct (is_space c) eqn:Hc; [reflexivity|].
    cbn [rstrip]. now rewrite Hc.
  - cbn [rstrip]. cbn [rstrip] in IH. rewrite IH. reflexivity.
Qed.

Lemma rstrip_spaces b :
  forallb is_space (list_ascii_of_string b) = true -> rstrip b = EmptyString.
Proof.
  induction b as [|c b IH]; [reflexivity|].
  cbn. rewrite andb_true_iff. intros [Hc Hb].
  now rewrite (IH Hb), Hc.
Qed.

Lemma rstrip_app_spaces a b :
  forallb is_space (list_ascii_of_string b) = true ->
  rstrip (a ++ b) = rstrip a.
Proof.
  intros Hb. induction a as [|c a IH]; cbn [append].
  - now rewrite rstrip_spaces.
  - cbn [rstrip]. now rewrite IH.
Qed.

Lemma rstrip_length s : String.length (rstrip s) <= String.length s.
Proof.
  induction s as [|c s IH]; [constructor|].
  cbn [rstrip]. destruct (rstrip s).
  - destruct (is_space c); cbn; lia.
  - cbn in *. lia.
Qed.

Lemma append_length a b :
  String.length (a ++ b) = String.length a + String.length b.
Proof. induction a as [|c a IH]; cbn; [reflexivity | now rewrite IH]. Qed.

(** A stripped string does not end with whitespace. *)
Lemma rstrip_no_trailing_space s a b :
  rstrip s = (a ++ b)%string ->
  forallb is_space (list_ascii_of_string b) = true ->
  b = EmptyString.
Proof.
  intros H Hb.
  pose proof (rstrip_idempotent s) as Hi.
  rewrite H, (rstrip_app_spaces _ _ Hb) in Hi.
  pose proof (rstrip_length a) as Hl.
  rewrite Hi, append_length in Hl.
  destruct b; [reflexivity | cbn in Hl; lia].
Qed.

Lemma lstrip_head s :
  match lstrip s with
  | EmptyString => True
  | String c _ => is_space c = false
  end.
Proof.
  induction s as [|c s IH]; [exact I|].
  cbn [lstrip]. destruct (is_space c) eqn:E; [exact IH | exact E].
Qed.

Lemma lstrip_fixed c s :
  is_space c = false -> lstrip (String c s) = String c s.
Proof. intros H. cbn [lstrip]. now rewrite H. Qed.

Lemma strip_head s :
  match strip s with
  | EmptyString => True
  | String c _ => is_space c = false
  end.
Proof.
  unfold strip. pose proof (lstrip_head s) as H.
  destruct (lstrip s) as [|c t]; [exact I|].
  now rewrite (rstrip_cons_keep _ _ H).
Qed.

Lemma strip_idempotent s : strip (strip s) = strip s.
Proof.
  pose proof (strip_head s) as H. unfold strip at 1.
  destruct (strip s) as [|c t] eqn:E; [reflexivity|].
  rewrite (lstrip_fixed _ _ H), <- E. unfold strip.
  apply rstrip_idempotent.
Qed.

Lemma strip_no_trailing_space s a b :
  strip s = (a ++ b)%string ->
  forallb is_space (list_ascii_of_string b) = true ->
  b = EmptyString.
Proof. unfold strip. apply rstrip_no_trailing_space. Qed.

Lemma newline_is_space c : is_newline c = true -> is_space c = true.
Proof.
  unfold is_newline. intros H. apply Ascii.eqb_eq in H. now subst.
Qed.

End StringFacts.

Section SplitJoin.

Lemma chars_app a b : chars (a ++ b) = chars a ++ chars b.
Proof.
  unfold chars. induction a as [|c a IH]; cbn; [reflexivity|].
  now rewrite IH.
Qed.

Lemma no_space_app a b :
  no_space (a ++ b) = no_space a && no_space b.
Proof. unfold no_space. rewrite chars_app. apply forallb_app. Qed.

Lemma split_ws_from_word w :
  no_space w = true ->
  forall cur s,
    split_ws_from cur (w ++ s) = split_ws_from (cur ++ w) s.
Proof.
  induction w as [|c w IH]; intros Hw cur s.
  - now rewrite append_nil_r.
  - cbn in Hw. apply andb_true_iff in Hw as [Hc Hw].
    apply negb_true_iff in Hc.
    cbn [append split_ws_from]. rewrite Hc, (IH Hw).
    now rewrite append_assoc.
Qed.

Lemma split_ws_from_words s :
  forall cur,
    no_space cur = true ->
    Forall is_word (split_ws_from cur s).
Proof.
  induction s as [|c s IH]; intros cur Hcur; cbn [split_ws_from].
  - destruct cur; [constructor|].
    cbn [is_empty]. constructor; [|constructor]. now split.
  - destruct (is_space c) eqn:Hc.
    + destruct cur as [|d cur]; cbn [is_empty].
      * now apply IH.
      * constructor; [now split | now apply IH].
    + apply IH. rewrite no_space_app, Hcur. cbn. now rewrite Hc.
Qed.

(** [s.split()] gives words. *)
Lemma split_ws_words s : Forall is_word (split_ws s).
Proof. now apply split_ws_from_words. Qed.

Lemma join_cons2 sep w w' ws :
  join sep (w :: w' :: ws) = (w ++ sep ++ join sep (w' :: ws))%string.
Proof. reflexivity. Qed.

(** Splitting what was joined with single spaces gives the words back. *)
Lemma split_ws_join ws :
  Forall is_word ws -> split_ws (join " " ws) = ws.
Proof.
  unfold split_ws. induction 1 as [|w ws [Hne Hw] Hws IH]; [reflexivity|].
  destruct ws as [|w' ws].
  - cbn [join String.concat].
    rewrite <- (append_nil_r w) at 1.
    rewrite (split_ws_from_word _ Hw). cbn [append split_ws_from].
    now destruct w.
  - rewrite join_cons2, (split_ws_from_word _ Hw).
    cbn [append split_ws_from]. change (is_space " ") with true. cbv iota.
    rewrite IH. now destruct w.
Qed.

Lemma split_ws_from_nil s :
  forall cur,
    split_ws_from cur s = [] ->
    cur = EmptyString /\ forallb is_space (chars s) = true.
Proof.
  induction s as [|c s IH]; intros cur; cbn [split_ws_from].
  - destruct cur; [now split | discriminate].
  - destruct (is_space c) eqn:Hc.
    + destruct cur; cbn [is_empty]; [|discriminate].
      intros H. destruct (IH _ H) as [_ Hs]. split; [reflexivity|].
      cbn. now rewrite Hc.
    + intros H. destruct (IH _ H) as [Habs _]. now destruct cur.
Qed.

Lemma lstrip_spaces s :
  forallb is_space (chars s) = true -> lstrip s = EmptyString.
Proof.
  induction s as [|c s IH]; [reflexivity|].
  cbn. rewrite andb_true_iff. intros [Hc Hs]. now rewrite Hc, IH.
Qed.

(** A line with a character that is no whitespace has a word. *)
Lemma split_ws_nonempty s :
  strip s <> EmptyString -> split_ws s <> [].
Proof.
  intros Hs Hnil. apply Hs.
  destruct (split_ws_from_nil _ _ Hnil) as [_ H].
  unfold strip. now rewrite lstrip_spaces.
Qed.

Lemma rstrip_word w : no_space w = true -> rstrip w = w.
Proof.
  induction w as [|c w IH]; [reflexivity|].
  intros H. cbn in H. apply andb_true_iff in H as [Hc Hw].
  apply negb_true_iff in Hc.
  rewrite (rstrip_cons_keep _ _ Hc). now rewrite (IH Hw).
Qed.

Lemma rstrip_app_keep a b :
  rstrip b <> EmptyString -> rstrip (a ++ b) = (a ++ rstrip b)%string.
Proof.
  intros Hb. induction a as [|c a IH]; [reflexivity|].
  cbn [append rstrip]. rewrite IH.
  destruct (a ++ rstrip b)%string eqn:E; [|reflexivity].
  destruct a; cbn in E; [now elim Hb | discriminate].
Qed.

Lemma join_words_nonempty w ws :
  is_word w -> join " " (w :: ws) <> EmptyString.
Proof.
  intros [Hne _]. destruct ws as [|w' ws].
  - exact Hne.
  - rewrite join_cons2. destruct w; [now elim Hne | discriminate].
Qed.

Lemma rstrip_join_words ws :
  Forall is_word ws -> rstrip (join " " ws) = join " " ws.
Proof.
  induction 1 as [|w ws Hw Hws IH]; [reflexivity|].
  destruct ws as [|w' ws].
  - apply rstrip_word, Hw.
  - rewrite join_cons2.
    assert (Hj : rstrip (" " ++ join " " (w' :: ws)) =
                 (" " ++ join " " (w' :: ws))%string).
    { rewrite rstrip_app_keep; rewrite IH; [reflexivity|].
      apply join_words_nonempty. now inversion Hws. }
    rewrite rstrip_app_keep; rewrite Hj; [reflexivity | discriminate].
Qed.

Lemma strip_join_words ws :
  Forall is_word ws -> strip (join " " ws) = join " " ws.
Proof.
  intros Hws. unfold strip.
  assert (Hl : lstrip (join " " ws) = join " " ws).
  { destruct Hws as [|w ws [Hne Hw] Hws]; [reflexivity|].
    assert (Hh : exists c t, join " " (w :: ws) = String c t /\
                             is_space c = false).
    { destruct w as [|c w]; [now elim Hne|].
      cbn in Hw. apply andb_true_iff in Hw as [Hc _].
      apply negb_true_iff in Hc.
      destruct ws; [now exists c, w|].
      rewrite join_cons2. cbn [append]. eexists c, _. now split. }
    destruct Hh as (c & t & -> & Hc). now apply lstrip_fixed. }
  rewrite Hl. now apply rstrip_join_words.
Qed.

Lemma interleave_empty s : interleave "" s = s.
Proof. induction s as [|c s IH]; cbn; [reflexivity | now rewrite IH]. Qed.

(** [clean_text_line] joins the words of the line with single spaces. *)
Lemma clean_text_line_words line :
  clean_text_line line = join " " (split_ws line).
Proof.
  unfold clean_text_line, replace_empty. rewrite !interleave_empty.
  apply strip_join_words, split_ws_words.
Qed.

End SplitJoin.

(* ===================================================================== *)
(** ** Text cleaning: further properties *)
(* ===================================================================== *)

(** X1.  Every line the scanner gets from a page text is non-empty, has
    no whitespace at either end, and is its own words joined by single
    spaces. *)
Theorem lines_of_text_normal text :
  Forall (fun l => l <> EmptyString /\ strip l = l /\
                   join " " (split_ws l) = l)
         (lines_of_text text).
Proof.
  unfold lines_of_text. apply Forall_forall. intros l Hin.
  apply in_map_iff in Hin as (x & <- & Hx).
  apply filter_In in Hx as [_ Hx]. apply negb_true_iff in Hx.
  rewrite clean_text_line_words.
  pose proof (split_ws_words x) as Hw.
  assert (Hne : split_ws x <> []).
  { apply split_ws_nonempty. now destruct (strip x). }
  repeat split.
  - destruct Hw as [|w ws Hw1 Hw]; [now elim Hne|].
    now apply join_words_nonempty.
  - now apply strip_join_words.
  - now rewrite split_ws_join.
Qed.

(** X2.  Cleaning a line keeps its words, in order, and cleaning twice
    is cleaning once. *)
Theorem clean_text_line_idempotent line :
  split_ws (clean_text_line line) = split_ws line /\
  clean_text_line (clean_text_line line) = clean_text_line line.
Proof.
  assert (H : split_ws (clean_text_line line) = split_ws line).
  { rewrite clean_text_line_words. apply split_ws_join, split_ws_words. }
  split; [exact H|].
  rewrite (clean_text_line_words (clean_text_line line)), H.
  now rewrite clean_text_line_words.
Qed.

(* ===================================================================== *)
(** ** The scanner: invariants of the main loop *)
(* ===================================================================== *)

Section ScanInvariants.

Variable page_num : nat.

Lemma scan_loop_other_step st l rest :
  is_question_start l = false ->
  scan_loop page_num st (l :: rest) =
  scan_loop page_num (other_step l st) rest.
Proof.
  unfold is_question_start, other_step. intros Hq. cbn [scan_loop].
  destruct (question_match (strip l)); [discriminate|].
  destruct (is_empty (strip l) || mem (strip l) boilerplate); [reflexivity|].
  destruct (option_match (strip l)) as [[letter g2]|]; [reflexivity|].
  destruct (startswith "Ans" (strip l)); [|reflexivity].
  now destruct (answer_search (strip l)).
Qed.

(** Every scan ends by appending the open question of a state reached
    through question starts and other steps; what these two keep, the
    final state has. *)
Lemma scan_loop_reaches (I : scan_state -> Prop) :
  (forall st l g1 g2 conts,
     I st -> question_match (strip l) = Some (g1, g2) ->
     Forall continues conts ->
     I (set_current_question (start_question page_num st g1 g2)
          (strip g2 ++ continuation_text conts)%string)) ->
  (forall st l, I st -> is_question_start l = false -> I (other_step l st)) ->
  forall lines st,
    I st ->
    exists st', I st' /\
      scan_loop page_num st lines = append_current page_num st'.
Proof.
  intros Hstart Hother lines.
  remember (length lines) as n eqn:Hn.
  assert (Hle : length lines <= n) by lia. clear Hn.
  revert lines Hle.
  induction n as [|n IH]; intros lines Hle st Hst.
  - destruct lines; [|cbn in Hle; lia]. now exists st.
  - destruct lines as [|l rest]; [now exists st|].
    cbn [length] in Hle.
    destruct (is_question_start l) eqn:Hs.
    + pose proof (question_start_not_skipped _ Hs) as Hk.
      unfold is_question_start in Hs.
      destruct (question_match (strip l)) as [[g1 g2]|] eqn:Hm;
        [|discriminate].
      rewrite (scan_loop_question _ _ _ _ _ _ Hk Hm).
      destruct (continuation_spec (strip g2) rest) as (conts & H1 & H2 & H3).
      assert (Hl : length rest =
                   length conts +
                   length (snd (continuation (strip g2) rest))).
      { rewrite H1 at 1. apply length_app. }
      apply IH; [lia|]. rewrite H3. now apply (Hstart st l).
    + rewrite (scan_loop_other_step _ _ _ Hs).
      apply IH; [lia|]. now apply Hother.
Qed.

Lemma other_step_progress l st : same_progress st (other_step l st).
Proof.
  unfold other_step.
  destruct (is_empty (strip l) || mem (strip l) boilerplate);
    [now repeat split|].
  destruct (option_match (strip l)) as [[letter g2]|]; [now repeat split|].
  destruct (startswith "Ans" (strip l)); [|now repeat split].
  destruct (answer_search (strip l)); now repeat split.
Qed.

(** The text after the number of a question-start line is not blank. *)
Lemma question_match_text l g1 g2 :
  question_match (strip l) = Some (g1, g2) ->
  strip g2 <> EmptyString.
Proof.
  unfold question_match.
  pose proof (span_spec is_digit (strip l)) as Hd.
  destruct (span is_digit (strip l)) as [ds r1].
  destruct Hd as (Hl & _ & _).
  destruct (is_empty ds); [discriminate|].
  destruct r1 as [|c r2]; [discriminate|].
  destruct (Ascii.eqb_spec "." c) as [<-|Hc];
    [|destruct c as [[] [] [] [] [] [] [] []]; try discriminate; now elim Hc].
  pose proof (span_spec is_space r2) as Hs.
  destruct (span is_space r2) as [ws tail].
  destruct Hs as (Hr & Hws & Htail).
  destruct tail as [|d t]; cbn [is_empty].
  - rewrite append_nil_r in Hr. subst r2.
    assert (Hw : ws = EmptyString).
    { apply (strip_no_trailing_space l (ds ++ ".")); [|exact Hws].
      rewrite Hl. now rewrite append_assoc. }
    subst ws. discriminate.
  - intros H. injection H as _ <-.
    unfold upto_newline. cbn [span].
    assert (Hn : is_newline d = false).
    { destruct (is_newline d) eqn:E; [|reflexivity].
      now rewrite (newline_is_space _ E) in Htail. }
    rewrite Hn. cbn [negb].
    destruct (span _ t) as [a b]. cbn [fst]. unfold strip.
    rewrite (lstrip_fixed _ _ Htail), (rstrip_cons_keep _ _ Htail).
    discriminate.
Qed.

Lemma append_nonempty_l a b :
  a <> EmptyString -> (a ++ b)%string <> EmptyString.
Proof. destruct a; [intros H; now elim H | discriminate]. Qed.

Lemma option_match_letter s letter g2 :
  option_match s = Some (letter, g2) -> is_AD letter = true.
Proof.
  unfold option_match. destruct (skip_open_bracket s) as [|c r];
    [discriminate|].
  destruct (is_AD c) eqn:E; [|discriminate].
  destruct (span is_space (skip_char "]" r)). intros H.
  injection H as <- _. exact E.
Qed.

Lemma AD_not_space c : is_AD c = true -> is_space c = false.
Proof.
  destruct c as [[] [] [] [] [] [] [] []]; vm_compute; congruence.
Qed.

(** A formatted option starts with its letter in brackets. *)
Lemma format_option_bracketed letter text :
  is_AD letter = true -> bracketed_letter (format_option letter text).
Proof.
  intros H. unfold format_option, strip.
  cbn [append]. rewrite lstrip_fixed by reflexivity.
  rewrite rstrip_cons_keep by reflexivity.
  rewrite rstrip_cons_keep by now apply AD_not_space.
  rewrite rstrip_cons_keep by reflexivity.
  now exists letter, (rstrip (String " " text)).
Qed.

End ScanInvariants.

(* ===================================================================== *)
(** ** Records of a page: further properties *)
(* ===================================================================== *)

Lemma assign_chunk_core k page_images i q :
  record_core (assign_chunk k page_images i q) = record_core q.
Proof.
  unfold assign_chunk. now destruct (i * k <? length page_images).
Qed.

Lemma associate_from_core k page_images qs :
  forall i,
    map record_core (associate_from k page_images i qs) =
    map record_core qs.
Proof.
  induction qs as [|q qs IH]; intros i; [reflexivity|].
  rewrite associate_from_cons. cbn [map].
  now rewrite assign_chunk_core, IH.
Qed.

(** X3.  The associator changes nothing but the two image fields: the
    records keep their number, order, question number, text, options,
    answer and page. *)
Theorem associate_keeps_scanned_fields qs page_images :
  map record_core (_associate_images_with_questions qs page_images) =
  map record_core qs.
Proof.
  destruct qs as [|q qs]; [reflexivity|].
  destruct page_images as [|img imgs]; [reflexivity|].
  rewrite associate_images_nonempty. apply associate_from_core.
Qed.

Lemma parse_lines_core lines page_images page_num :
  map record_core (parse_lines lines page_images page_num) =
  map record_core (scan_lines lines page_num).
Proof.
  unfold parse_lines.
  destruct (scan_lines lines page_num) as [|q qs]; [reflexivity|].
  destruct page_images as [|img imgs]; [reflexivity|].
  apply associate_from_core.
Qed.

Lemma Forall_by_core (P : _ -> Prop) l1 l2 :
  map record_core l1 = map record_core l2 ->
  Forall (fun q => P (record_core q)) l2 ->
  Forall (fun q => P (record_core q)) l1.
Proof.
  intros Hm H.
  apply (proj1 (Forall_map record_core P l1)). rewrite Hm.
  now apply (proj2 (Forall_map record_core P l2)).
Qed.

Lemma scan_lines_wellformed lines page_num :
  Forall (fun q => page q = page_num + 1 /\
                   question_number q <> None /\
                   question q <> EmptyString)
         (scan_lines lines page_num).
Proof.
  set (wf := fun q => page q = page_num + 1 /\
                      question_number q <> None /\
                      question q <> EmptyString).
  set (I := fun st =>
              Forall wf (questions st) /\
              forall q, current_question st = Some q ->
                        q <> EmptyString /\ current_number st <> None).
  assert (Hfin : forall st, I st -> Forall wf (append_current page_num st)).
  { intros st [Hq Hc]. unfold append_current.
    destruct (current_question st) as [q|] eqn:E; [|assumption].
    apply Forall_app. split; [assumption|].
    destruct (Hc q eq_refl) as [H1 H2].
    constructor; [|constructor]. now repeat split. }
  unfold scan_lines.
  destruct (scan_loop_reaches page_num I) with (lines := lines)
    (st := initial_state) as (st' & Hst' & ->).
  - intros st l g1 g2 conts Hst Hm _. split.
    + cbn. now apply Hfin.
    + cbn. intros q [= <-]. split; [|discriminate].
      apply append_nonempty_l. now apply (question_match_text l g1).
  - intros st l [Hq Hc] _.
    destruct (other_step_progress l st) as (H1 & H2 & H3).
    split; [now rewrite H1|]. intros q. rewrite H2, H3. apply Hc.
  - split; [constructor | discriminate].
  - now apply Hfin.
Qed.

(** X4.  Every record of a page carries the 1-based index of the page,
    a question number and a question text that is not empty. *)
Theorem records_wellformed lines page_images page_num :
  Forall (fun q => page q = page_num + 1 /\
                   question_number q <> None /\
                   question q <> EmptyString)
         (parse_lines lines page_images page_num).
Proof.
  apply (Forall_by_core
           (fun c => let '(n, t, _, _, p) := c in
                     p = page_num + 1 /\ n <> None /\ t <> EmptyString)
           _ _ (parse_lines_core lines page_images page_num)).
  apply scan_lines_wellformed.
Qed.

Lemma scan_lines_options_bracketed lines page_num :
  Forall (fun q => Forall bracketed_letter (options q))
         (scan_lines lines page_num).
Proof.
  set (I := fun st =>
              Forall (fun q => Forall bracketed_letter (options q))
                     (questions st) /\
              Forall bracketed_letter (current_options st)).
  assert (Hfin : forall st, I st ->
            Forall (fun q => Forall bracketed_letter (options q))
                   (append_current page_num st)).
  { intros st [Hq Hc]. unfold append_current.
    destruct (current_question st); [|assumption].
    apply Forall_app. split; [assumption|]. now repeat constructor. }
  unfold scan_lines.
  destruct (scan_loop_reaches page_num I) with (lines := lines)
    (st := initial_state) as (st' & Hst' & ->).
  - intros st l g1 g2 conts Hst _ _. split; [|constructor].
    cbn. now apply Hfin.
  - intros st l [Hq Hc] _. unfold other_step.
    destruct (is_empty (strip l) || mem (strip l) boilerplate);
      [now split|].
    destruct (option_match (strip l)) as [[letter g2]|] eqn:Ho.
    + split; [exact Hq|]. cbn. apply Forall_app. split; [exact Hc|].
      constructor; [|constructor]. apply format_option_bracketed.
      now apply (option_match_letter _ _ _ Ho).
    + destruct (startswith "Ans" (strip l)); [|now split].
      destruct (answer_search (strip l)); now split.
  - split; constructor.
  - now apply Hfin.
Qed.

(** X5.  Every entry of [options] of every record starts with a letter
    A-D in square brackets, also when the line had no brackets. *)
Theorem options_bracketed lines page_images page_num :
  Forall (fun q => Forall bracketed_letter (options q))
         (parse_lines lines page_images page_num).
Proof.
  apply (Forall_by_core
           (fun c => let '(_, _, o, _, _) := c in
                     Forall bracketed_letter o)
           _ _ (parse_lines_core lines page_images page_num)).
  apply scan_lines_options_bracketed.
Qed.

(** X6.  No record of any page has an answer: a line that starts with
    [Ans] starts with the letter A and is read as an option. *)
Theorem records_never_have_answer lines page_images page_num :
  Forall (fun q => answer q = None)
         (parse_lines lines page_images page_num).
Proof.
  apply (Forall_by_core
           (fun c => let '(_, _, _, a, _) := c in a = None)
           _ _ (parse_lines_core lines page_images page_num)).
  apply scan_lines_no_answer.
Qed.

(* ===================================================================== *)
(** ** The scanner: question blocks *)
(* ===================================================================== *)

Section ScanBlocks.

Variable page_num : nat.

(** Induction along the main loop: a question start jumps over its
    continuation lines, any other line is one step. *)
Lemma scan_loop_induction (P : scan_state -> list string -> Prop) :
  (forall st, P st []) ->
  (forall st l rest g1 g2,
     skipped l = false ->
     question_match (strip l) = Some (g1, g2) ->
     P (set_current_question (start_question page_num st g1 g2)
                             (fst (continuation (strip g2) rest)))
       (snd (continuation (strip g2) rest)) ->
     P st (l :: rest)) ->
  (forall st l rest,
     is_question_start l = false ->
     P (other_step l st) rest -> P st (l :: rest)) ->
  forall lines st, P st lines.
Proof.
  intros Hnil Hstart Hother lines.
  remember (length lines) as n eqn:Hn.
  assert (Hle : length lines <= n) by lia. clear Hn.
  revert lines Hle.
  induction n as [|n IH]; intros lines Hle st.
  - destruct lines; [apply Hnil | cbn in Hle; lia].
  - destruct lines as [|l rest]; [apply Hnil|].
    cbn [length] in Hle.
    destruct (is_question_start l) eqn:Hs.
    + pose proof (question_start_not_skipped _ Hs) as Hk.
      unfold is_question_start in Hs.
      destruct (question_match (strip l)) as [[g1 g2]|] eqn:Hm;
        [|discriminate].
      apply (Hstart st l rest g1 g2 Hk Hm).
      destruct (continuation_spec (strip g2) rest) as (conts & H1 & _).
      assert (Hl : length rest =
                   length conts +
                   length (snd (continuation (strip g2) rest))).
      { rewrite H1 at 1. apply length_app. }
      apply IH. lia.
    + apply Hother; [assumption|]. apply IH. lia.
Qed.

Lemma append_current_prepend qs st :
  append_current page_num (prepend_questions qs st) =
  qs ++ append_current page_num st.
Proof.
  unfold append_current, prepend_questions. cbn.
  destruct (current_question st); [now rewrite app_assoc | reflexivity].
Qed.

Lemma other_step_prepend qs l st :
  other_step l (prepend_questions qs st) =
  prepend_questions qs (other_step l st).
Proof.
  unfold other_step.
  destruct (is_empty (strip l) || mem (strip l) boilerplate); [reflexivity|].
  destruct (option_match (strip l)) as [[letter g2]|]; [reflexivity|].
  destruct (startswith "Ans" (strip l)); [|reflexivity].
  now destruct (answer_search (strip l)).
Qed.

(** Records already in the list stay in front, untouched. *)
Lemma scan_loop_prepend qs lines :
  forall st,
    scan_loop page_num (prepend_questions qs st) lines =
    qs ++ scan_loop page_num st lines.
Proof.
  apply (scan_loop_induction
           (fun st lines =>
              scan_loop page_num (prepend_questions qs st) lines =
              qs ++ scan_loop page_num st lines)).
  - intros st. apply append_current_prepend.
  - intros st l rest g1 g2 Hk Hm IH.
    rewrite !(scan_loop_question _ _ _ _ _ _ Hk Hm), <- IH.
    f_equal. unfold set_current_question, start_question, prepend_questions.
    cbn. now rewrite <- (append_current_prepend qs st).
  - intros st l rest Hs IH.
    rewrite !(scan_loop_other_step _ _ _ _ Hs), other_step_prepend.
    exact IH.
Qed.

Lemma continuation_app_stop l b :
  stops_continuation (strip l) = true ->
  forall a cur,
    continuation cur (a ++ l :: b) =
    (fst (continuation cur a), snd (continuation cur a) ++ l :: b).
Proof.
  intros Hl. induction a as [|x a IH]; intros cur.
  - cbn [app continuation fst snd]. now rewrite Hl.
  - cbn [app continuation].
    destruct (stops_continuation (strip x)); [reflexivity | apply IH].
Qed.

Lemma scan_loop_split l b :
  is_question_start l = true ->
  forall a st,
    scan_loop page_num st (a ++ l :: b) =
    scan_loop page_num st a ++ scan_loop page_num initial_state (l :: b).
Proof.
  intros Hq.
  pose proof (question_start_not_skipped _ Hq) as Hk.
  assert (Hstop : stops_continuation (strip l) = true).
  { unfold is_question_start in Hq.
    destruct (question_match (strip l)) eqn:E; [|discriminate].
    now apply (question_match_stops _ _ E). }
  apply (scan_loop_induction
           (fun st a =>
              scan_loop page_num st (a ++ l :: b) =
              scan_loop page_num st a ++
              scan_loop page_num initial_state (l :: b))).
  - intros st. cbn [app]. rewrite scan_loop_nil.
    unfold is_question_start in Hq.
    destruct (question_match (strip l)) as [[g1 g2]|] eqn:Hm;
      [|discriminate].
    rewrite !(scan_loop_question _ _ _ _ _ _ Hk Hm).
    rewrite <- scan_loop_prepend. f_equal.
    unfold set_current_question, start_question, prepend_questions.
    cbn. now rewrite app_nil_r.
  - intros st x rest g1 g2 Hx Hm IH. cbn [app].
    rewrite !(scan_loop_question _ _ _ _ _ _ Hx Hm).
    rewrite (continuation_app_stop _ _ Hstop). cbn [fst snd].
    exact IH.
  - intros st x rest Hx IH. cbn [app].
    rewrite !(scan_loop_other_step _ _ _ _ Hx). exact IH.
Qed.

Lemma skip_open_bracket_cases s :
  (exists s', s = String "[" s' /\ skip_open_bracket s = s') \/
  (skip_open_bracket s = s /\
   match s with String c _ => c <> "["%char | EmptyString => True end).
Proof.
  destruct s as [|c s]; [now right|].
  destruct (Ascii.eqb_spec "[" c) as [<-|Hc].
  - left. now exists s.
  - right. split; [|now intros ->].
    destruct c as [[] [] [] [] [] [] [] []]; try reflexivity. now elim Hc.
Qed.

Lemma AD_not_digit c : is_AD c = true -> is_digit c = false.
Proof.
  destruct c as [[] [] [] [] [] [] [] []]; vm_compute; congruence.
Qed.

(** An option line is not a question start and is not skipped. *)
Lemma option_match_not_question s p :
  option_match s = Some p -> question_match s = None.
Proof.
  unfold option_match.
  destruct (skip_open_bracket_cases s) as [(s' & -> & ->)|[-> Hc]].
  - intros _. reflexivity.
  - destruct s as [|c r]; [discriminate|].
    destruct (is_AD c) eqn:E; [|discriminate]. intros _.
    unfold question_match. cbn [span].
    now rewrite (AD_not_digit _ E).
Qed.

Lemma skipped_not_option l :
  skipped l = true -> option_match (strip l) = None.
Proof.
  unfold skipped. rewrite orb_true_iff. intros [H|H].
  - destruct (strip l); [reflexivity | discriminate].
  - apply mem_In in H. simpl in H.
    destruct H as [<-|[<-|[<-|[]]]]; reflexivity.
Qed.

Lemma other_step_option l st :
  is_option_line l = true ->
  other_step l st = add_option st (option_entry l).
Proof.
  unfold is_option_line, other_step, option_entry. intros H.
  destruct (option_match (strip l)) as [[letter g2]|] eqn:Ho;
    [|discriminate].
  destruct (is_empty (strip l) || mem (strip l) boilerplate) eqn:Hk;
    [|reflexivity].
  fold (skipped l) in Hk. now rewrite (skipped_not_option _ Hk) in Ho.
Qed.

Lemma option_line_not_question_start l :
  is_option_line l = true -> is_question_start l = false.
Proof.
  unfold is_option_line, is_question_start.
  destruct (option_match (strip l)) eqn:Ho; [|discriminate].
  now rewrite (option_match_not_question _ _ Ho).
Qed.

(** A run of option lines adds one entry each, in order. *)
Lemma scan_loop_options opts :
  Forall (fun o => is_option_line o = true) opts ->
  forall st,
    scan_loop page_num st opts =
    append_current page_num
      (mkState (questions st) (current_question st)
               (current_options st ++ map option_entry opts)
               (current_answer st) (current_number st)).
Proof.
  induction 1 as [|o opts Ho _ IH]; intros st.
  - cbn [map]. rewrite app_nil_r. now destruct st.
  - rewrite (scan_loop_other_step _ _ _ _
               (option_line_not_question_start _ Ho)).
    rewrite (other_step_option _ _ Ho), IH. cbn.
    now rewrite <- app_assoc.
Qed.

End ScanBlocks.

(** X7.  The scan of a page splits at every question-start line: the
    records of the lines before it and those of the lines from it on do
    not depend on each other. *)
Theorem scan_splits_at_question_start a l b page_num :
  is_question_start l = true ->
  scan_lines (a ++ l :: b) page_num =
  scan_lines a page_num ++ scan_lines (l :: b) page_num.
Proof.
  intros Hq. unfold scan_lines. now apply scan_loop_split.
Qed.

Lemma scan_splits_at_question_start_witness :
  scan_lines (["1. x"; "more"; "[A] y"] ++ "2. z" :: ["[B] w"]) 0 =
  scan_lines ["1. x"; "more"; "[A] y"] 0 ++ scan_lines ("2. z" :: ["[B] w"]) 0.
Proof.
  apply (scan_splits_at_question_start
           ["1. x"; "more"; "[A] y"] "2. z" ["[B] w"] 0).
  reflexivity.
Defined.

(** X8.  A question-start line, its continuation lines and then option
    lines, the first of which ends the continuation, give one record:
    the number, the joined text, and one entry for each option line, in
    the order of the lines. *)
Theorem question_block_record l g1 g2 conts opts page_num :
  question_match (strip l) = Some (g1, g2) ->
  Forall continues conts ->
  Forall (fun o => is_option_line o = true) opts ->
  (opts = [] \/
   exists o r, opts = o :: r /\ stops_continuation (strip o) = true) ->
  scan_lines (l :: conts ++ opts) page_num =
  [mkQuestion (Some (int_of_digits g1))
              (strip g2 ++ continuation_text conts)%string
              (map option_entry opts) None (page_num + 1) "" []].
Proof.
  intros Hm Hc Ho Hstop. unfold scan_lines.
  assert (Hk : skipped l = false).
  { apply question_start_not_skipped. unfold is_question_start.
    now rewrite Hm. }
  rewrite (scan_loop_question _ _ _ _ _ _ Hk Hm).
  rewrite (continuation_app _ _ _ Hc Hstop). cbn [fst snd].
  now rewrite (scan_loop_options _ _ Ho).
Qed.

Lemma question_block_record_witness :
  scan_lines ("7. Which one" :: ["is odd?"] ++ ["[A] 2"; "B 3"; "[C]"]) 4 =
  [mkQuestion (Some 7%N) "Which one is odd?"
              ["[A] 2"; "[B] 3"; "[C]"] None 5 "" []].
Proof.
  apply (question_block_record "7. Which one" "7" "Which one"
           ["is odd?"] ["[A] 2"; "B 3"; "[C]"] 4).
  - reflexivity.
  - repeat constructor.
  - repeat constructor.
  - right. exists "[A] 2", ["B 3"; "[C]"]. split; reflexivity.
Defined.

(* ===================================================================== *)
(** ** The image associator: further properties *)
(* ===================================================================== *)

Section AssociatorOrder.

Variable page_images : list string.
Variable k : nat.

Lemma firstn_add {A : Type} (p q : nat) (l : list A) :
  firstn (p + q) l = firstn p l ++ firstn q (skipn p l).
Proof.
  revert l. induction p as [|p IH]; intros l; [reflexivity|].
  destruct l as [|x l]; cbn [Nat.add firstn skipn app].
  - now rewrite firstn_nil.
  - now rewrite IH.
Qed.

Lemma slice_app {A : Type} (l : list A) (a b c : nat) :
  a <= b -> b <= c -> slice l a b ++ slice l b c = slice l a c.
Proof.
  intros Hab Hbc. unfold slice.
  replace (c - a) with ((b - a) + (c - b)) by lia.
  rewrite firstn_add, skipn_skipn.
  now replace (b - a + a) with b by lia.
Qed.

Lemma slice_min {A : Type} (l : list A) (a b : nat) :
  slice l a (Nat.min b (length l)) = slice l a b.
Proof.
  unfold slice. destruct (Nat.le_ge_cases b (length l)) as [H|H].
  - now rewrite Nat.min_l.
  - rewrite Nat.min_r by assumption.
    rewrite !firstn_all2; [reflexivity | |]; rewrite length_skipn; lia.
Qed.

Lemma slice_beyond {A : Type} (l : list A) (a b : nat) :
  length l <= a -> slice l a b = [].
Proof.
  intros H. unfold slice. rewrite skipn_all2 by assumption.
  apply firstn_nil.
Qed.

Lemma image_list_assign_chunk i q :
  1 <= k -> no_images q ->
  Forall (fun img => img <> EmptyString) page_images ->
  image_list (assign_chunk k page_images i q) =
  slice page_images (i * k) (i * k + k).
Proof.
  intros Hk [Hi Ho] Hne. unfold assign_chunk, image_list.
  destruct (i * k <? length page_images) eqn:E.
  - apply Nat.ltb_lt in E. cbn [set_images images option_images].
    assert (Hn : nth (i * k) page_images "" <> EmptyString).
    { rewrite Forall_forall in Hne. apply Hne. now apply nth_In. }
    destruct (nth (i * k) page_images "") as [|c t] eqn:En; [now elim Hn|].
    cbn [is_empty app]. rewrite <- En, slice_min.
    symmetry. apply slice_cons; [assumption | lia].
  - apply Nat.ltb_ge in E. rewrite Hi, Ho. cbn.
    now rewrite slice_beyond.
Qed.

Lemma image_list_associate_from qs :
  1 <= k -> Forall no_images qs ->
  Forall (fun img => img <> EmptyString) page_images ->
  forall i,
    flat_map image_list (associate_from k page_images i qs) =
    slice page_images (i * k) ((i + length qs) * k).
Proof.
  intros Hk Hq Hne.
  induction Hq as [|q qs Hq1 Hq IH]; intros i.
  - cbn. rewrite Nat.add_0_r. now rewrite slice_empty.
  - rewrite associate_from_cons. cbn [flat_map length].
    rewrite IH, (image_list_assign_chunk _ _ Hk Hq1 Hne).
    replace (i * k + k) with (S i * k) by (cbn; lia).
    replace (i + S (length qs)) with (S i + length qs) by lia.
    apply slice_app; nia.
Qed.

Lemma assign_chunk_twice i q :
  assign_chunk k page_images i (assign_chunk k page_images i q) =
  assign_chunk k page_images i q.
Proof.
  unfold assign_chunk.
  destruct (i * k <? length page_images); reflexivity.
Qed.

Lemma associate_from_twice qs :
  forall i,
    associate_from k page_images i (associate_from k page_images i qs) =
    associate_from k page_images i qs.
Proof.
  induction qs as [|q qs IH]; intros i; [reflexivity|].
  rewrite !associate_from_cons. now rewrite assign_chunk_twice, IH.
Qed.

End AssociatorOrder.

Lemma image_list_associate qs page_images :
  qs <> [] ->
  Forall no_images qs ->
  Forall (fun img => img <> EmptyString) page_images ->
  flat_map image_list (_associate_images_with_questions qs page_images) =
  firstn (length qs * Nat.max 1 (length page_images / length qs))
         page_images.
Proof.
  intros Hne Hq Hi.
  destruct qs as [|q0 qs']; [now elim Hne|].
  destruct page_images as [|img imgs].
  - cbn [_associate_images_with_questions]. rewrite firstn_nil.
    clear Hne. induction Hq as [|q qs [H1 H2] _ IH]; [reflexivity|].
    cbn [flat_map]. unfold image_list at 1. now rewrite H1, H2, IH.
  - rewrite associate_images_nonempty.
    rewrite image_list_associate_from;
      [| apply Nat.le_max_l | assumption | assumption].
    unfold slice. cbn [Nat.add Nat.mul skipn]. now rewrite Nat.sub_0_r.
Qed.

(** X9.  Read in question order, the images the associator hands out
    are the first [m*k] images of the page, each once and in the order
    of the page; the images after them go to no question. *)
Theorem assigned_images_are_a_prefix qs page_images :
  qs <> [] ->
  Forall no_images qs ->
  Forall (fun img => img <> EmptyString) page_images ->
  flat_map image_list (_associate_images_with_questions qs page_images) =
  firstn (length qs * Nat.max 1 (length page_images / length qs))
         page_images.
Proof. exact (image_list_associate qs page_images). Qed.

Lemma assigned_images_are_a_prefix_witness :
  flat_map image_list
    (_associate_images_with_questions
       [sample_question 1 "x"; sample_question 2 "y"]
       ["img0"; "img1"; "img2"; "img3"; "img4"])
  = firstn (2 * Nat.max 1 (5 / 2)) ["img0"; "img1"; "img2"; "img3"; "img4"].
Proof.
  apply (assigned_images_are_a_prefix
           [sample_question 1 "x"; sample_question 2 "y"]
           ["img0"; "img1"; "img2"; "img3"; "img4"]).
  - discriminate.
  - repeat constructor.
  - repeat constructor; discriminate.
Defined.

(** X10.  The only question of a page gets every image of the page:
    the first as [images], the others as [option_images]. *)
Theorem single_question_gets_all_images q img imgs :
  _associate_images_with_questions [q] (img :: imgs) =
  [set_images q img imgs].
Proof.
  rewrite associate_images_nonempty, associate_from_cons.
  cbn [associate_from length]. rewrite Nat.div_1_r.
  unfold assign_chunk. cbn [Nat.mul Nat.add length Nat.ltb Nat.leb nth].
  f_equal. f_equal.
  rewrite Nat.max_r by lia. rewrite Nat.min_id.
  unfold slice. cbn [skipn Nat.sub].
  rewrite Nat.sub_0_r. apply firstn_all.
Qed.

(** X11.  With no more images than questions every image goes to one
    question: question [i] gets image [i] and no option image, and the
    questions from index [n] on get none. *)
Theorem one_image_each_when_few_images qs page_images i q :
  nth_error qs i = Some q ->
  1 <= length page_images <= length qs ->
  nth_error (_associate_images_with_questions qs page_images) i =
  Some (if i <? length page_images
        then set_images q (nth i page_images "") []
        else q).
Proof.
  intros Hq [H1 Hle].
  destruct qs as [|q0 qs']; [now destruct i|].
  destruct page_images as [|img imgs]; [cbn in H1; lia|].
  rewrite associate_images_nonempty, associate_from_nth_error, Hq.
  cbn [option_map Nat.add]. f_equal.
  set (n := length (img :: imgs)) in *.
  set (m := length (q0 :: qs')) in *.
  assert (Hk : Nat.max 1 (n / m) = 1).
  { destruct (Nat.eq_dec n m) as [->|Hne].
    - rewrite Nat.div_same by lia. reflexivity.
    - rewrite Nat.div_small by lia. reflexivity. }
  rewrite Hk. unfold assign_chunk. fold n. rewrite Nat.mul_1_r.
  destruct (i <? n) eqn:E; [|reflexivity].
  apply Nat.ltb_lt in E. f_equal.
  apply slice_empty. lia.
Qed.

Lemma one_image_each_when_few_images_witness :
  nth_error
    (_associate_images_with_questions
       [sample_question 1 "x"; sample_question 2 "y"; sample_question 3 "z"]
       ["img0"; "img1"]) 1
  = Some (set_images (sample_question 2 "y") "img1" []).
Proof.
  apply (one_image_each_when_few_images
           [sample_question 1 "x"; sample_question 2 "y";
            sample_question 3 "z"]
           ["img0"; "img1"] 1 (sample_question 2 "y")).
  - reflexivity.
  - cbn. lia.
Defined.

(** X12.  Running the associator again on its own outcome, with the
    same images, changes nothing. *)
Theorem associate_twice qs page_images :
  _associate_images_with_questions
    (_associate_images_with_questions qs page_images) page_images =
  _associate_images_with_questions qs page_images.
Proof.
  destruct qs as [|q qs]; [reflexivity|].
  destruct page_images as [|img imgs]; [reflexivity|].
  rewrite associate_images_nonempty.
  set (k := Nat.max 1 (length (img :: imgs) / length (q :: qs))).
  pose proof (associate_from_length (img :: imgs) k 0 (q :: qs)) as Hl.
  destruct (associate_from k (img :: imgs) 0 (q :: qs)) as [|q' qs'] eqn:E;
    [discriminate Hl|].
  rewrite associate_images_nonempty, Hl. fold k.
  rewrite <- E. apply associate_from_twice.
Qed.

(* ===================================================================== *)
(** ** Page numbers in messages and file names *)
(* ===================================================================== *)

Section Decimal.

Lemma string_of_uint_digits d :
  forallb is_digit (chars (NilEmpty.string_of_uint d)) = true.
Proof. induction d; cbn; [reflexivity | assumption ..]. Qed.

Lemma str_of_nat_digits i : forallb is_digit (chars (str_of_nat i)) = true.
Proof. apply string_of_uint_digits. Qed.

(** [str] of a number determines the number. *)
Lemma str_of_nat_inj i j : str_of_nat i = str_of_nat j -> i = j.
Proof.
  unfold str_of_nat. intros H.
  apply (f_equal NilEmpty.uint_of_string) in H.
  rewrite !NilEmpty.usu in H. injection H as H.
  apply (f_equal Nat.of_uint) in H.
  now rewrite !DecimalNat.Unsigned.of_to in H.
Qed.

Lemma append_inj_l a b c : (a ++ b)%string = (a ++ c)%string -> b = c.
Proof.
  induction a as [|x a IH]; cbn; [trivial|].
  intros H. injection H as H. now apply IH.
Qed.

Lemma span_digits_app a c :
  forallb is_digit (chars a) = true ->
  match c with
  | EmptyString => True
  | String x _ => is_digit x = false
  end ->
  span is_digit (a ++ c) = (a, c).
Proof.
  intros Ha Hc. induction a as [|x a IH]; cbn [append].
  - destruct c as [|y c]; [reflexivity|]. cbn [span]. now rewrite Hc.
  - cbn in Ha. apply andb_true_iff in Ha as [Hx Ha].
    cbn [span]. now rewrite Hx, (IH Ha).
Qed.

(** Digits followed by something that is no digit: both parts are
    determined by the whole. *)
Lemma digits_then_inj a b c d :
  forallb is_digit (chars a) = true ->
  forallb is_digit (chars b) = true ->
  match c with
  | EmptyString => True
  | String x _ => is_digit x = false
  end ->
  match d with
  | EmptyString => True
  | String x _ => is_digit x = false
  end ->
  (a ++ c)%string = (b ++ d)%string -> a = b /\ c = d.
Proof.
  intros Ha Hb Hc Hd H.
  pose proof (span_digits_app _ _ Ha Hc) as H1.
  pose proof (span_digits_app _ _ Hb Hd) as H2.
  rewrite H, H2 in H1. now injection H1 as -> ->.
Qed.

Lemma img_filename_inj p i p' i' :
  img_filename p i = img_filename p' i' -> p = p' /\ i = i'.
Proof.
  unfold img_filename. intros H.
  apply (append_inj_l "page") in H.
  apply digits_then_inj in H;
    [| apply str_of_nat_digits | apply str_of_nat_digits
     | reflexivity | reflexivity].
  destruct H as [Hp H]. apply str_of_nat_inj in Hp.
  apply (append_inj_l "_image") in H.
  apply digits_then_inj in H;
    [| apply str_of_nat_digits | apply str_of_nat_digits
     | reflexivity | reflexivity].
  destruct H as [Hi _]. apply str_of_nat_inj in Hi.
  split; lia.
Qed.

Lemma img_path_unfold images_dir p i :
  img_path images_dir p i =
  ((if is_empty images_dir || endswith_char "/" images_dir
    then images_dir else images_dir ++ "/") ++ img_filename p i)%string.
Proof.
  unfold img_path, path_join.
  change (startswith "/" (img_filename p i)) with false. cbv iota.
  destruct (is_empty images_dir || endswith_char "/" images_dir);
    [reflexivity|].
  now rewrite append_assoc.
Qed.

End Decimal.

(** X13.  An error message tells the page and the exception: two
    messages are the same only for the same page and the same text. *)
Theorem error_msg_names_the_page p e p' e' :
  error_msg p e = error_msg p' e' -> p = p' /\ e = e'.
Proof.
  unfold error_msg. intros H.
  apply (append_inj_l "Error processing page ") in H.
  apply digits_then_inj in H;
    [| apply str_of_nat_digits | apply str_of_nat_digits
     | reflexivity | reflexivity].
  destruct H as [Hp H]. apply str_of_nat_inj in Hp.
  apply (append_inj_l ": ") in H. split; [lia | exact H].
Qed.

Lemma error_msg_names_the_page_witness : 2 = 2 /\ "boom" = "boom".
Proof.
  apply (error_msg_names_the_page 2 "boom" 2 "boom"). reflexivity.
Defined.

Lemma img_path_inj images_dir p i p' i' :
  img_path images_dir p i = img_path images_dir p' i' ->
  p = p' /\ i = i'.
Proof.
  rewrite !img_path_unfold. intros H.
  apply append_inj_l in H. now apply img_filename_inj.
Qed.

(** X14.  The file of an image is named after its page and its index
    on the page: two images of a document never get the same path. *)
Theorem img_path_unique images_dir p i p' i' :
  img_path images_dir p i = img_path images_dir p' i' ->
  p = p' /\ i = i'.
Proof. exact (img_path_inj images_dir p i p' i'). Qed.

Lemma img_path_unique_witness : 3 = 3 /\ 1 = 1.
Proof.
  apply (img_path_unique "out/images" 3 1 3 1). reflexivity.
Defined.

(* ===================================================================== *)
(** ** The page content: properties *)
(* ===================================================================== *)

Section PageContent.

Variable images_dir : string.
Variable page_num : nat.

Lemma extract_images_loop_map image_list :
  forall img_index,
    extract_images_loop images_dir page_num img_index image_list =
    map (img_path images_dir page_num) (kept_indices img_index image_list).
Proof.
  induction image_list as [|img rest IH]; intros i; [reflexivity|].
  cbn [extract_images_loop kept_indices]. rewrite IH.
  destruct img as [pix|msg]; cbn [kept]; [|reflexivity].
  destruct ((Pix.width pix <? 20) || (Pix.height pix <? 20));
    cbn [negb andb]; [reflexivity|].
  now destruct (if Pix.n pix - Pix.alpha pix <? 4
                then Pix.save_ok pix else Pix.rgb_save_ok pix).
Qed.

Lemma kept_indices_bounds image_list :
  forall i j,
    In j (kept_indices i image_list) ->
    i <= j < i + length image_list /\
    exists img, nth_error image_list (j - i) = Some img /\ kept img = true.
Proof.
  induction image_list as [|img rest IH]; intros i j; [intros []|].
  cbn [kept_indices length].
  assert (Hrest : In j (kept_indices (S i) rest) ->
            i <= j < i + S (length rest) /\
            exists img', nth_error (img :: rest) (j - i) = Some img' /\
                         kept img' = true).
  { intros H. destruct (IH _ _ H) as [Hb (img' & Hn & Hk)].
    split; [lia|]. exists img'. split; [|exact Hk].
    replace (j - i) with (S (j - S i)) by lia. exact Hn. }
  destruct (kept img) eqn:E; [|exact Hrest].
  intros [<-|H]; [|now apply Hrest].
  split; [lia|]. exists img. now rewrite Nat.sub_diag.
Qed.

Lemma kept_indices_NoDup image_list :
  forall i, NoDup (kept_indices i image_list).
Proof.
  induction image_list as [|img rest IH]; intros i; [constructor|].
  cbn [kept_indices]. destruct (kept img); [|apply IH].
  constructor; [|apply IH].
  intros H. apply kept_indices_bounds in H. lia.
Qed.

Lemma kept_indices_length image_list :
  forall i, length (kept_indices i image_list) <= length image_list.
Proof.
  induction image_list as [|img rest IH]; intros i; [constructor|].
  cbn [kept_indices length]. specialize (IH (S i)).
  destruct (kept img); cbn [length]; lia.
Qed.

Lemma img_path_nonempty i : img_path images_dir page_num i <> EmptyString.
Proof.
  rewrite img_path_unfold.
  destruct (if is_empty images_dir || endswith_char "/" images_dir
            then images_dir else (images_dir ++ "/")%string);
    discriminate.
Qed.

Lemma extract_images_loop_spec image_list :
  let paths := extract_images_loop images_dir page_num 0 image_list in
  paths = map (img_path images_dir page_num) (kept_indices 0 image_list) /\
  NoDup paths /\
  Forall (fun path => path <> EmptyString) paths /\
  length paths <= length image_list.
Proof.
  cbv zeta. rewrite extract_images_loop_map. repeat split.
  - pose proof (kept_indices_NoDup image_list 0) as Hn.
    induction Hn as [|j l Hj _ IH]; [constructor|].
    cbn [map]. constructor; [|exact IH].
    intros Hin. apply in_map_iff in Hin as (j' & He & Hj').
    apply img_path_inj in He as [_ ->]. contradiction.
  - apply Forall_forall. intros path Hin.
    apply in_map_iff in Hin as (j & <- & _). apply img_path_nonempty.
  - rewrite length_map. apply kept_indices_length.
Qed.

End PageContent.

Lemma parse_lines_associate lines page_images page_num :
  parse_lines lines page_images page_num =
  _associate_images_with_questions (scan_lines lines page_num) page_images.
Proof.
  unfold parse_lines.
  destruct (scan_lines lines page_num); [reflexivity|].
  now destruct page_images.
Qed.

(** What a page gives when its content can be read. *)
Lemma extract_page_content_ok tp mupdf images page_num text imgs qs :
  extract_page_content tp mupdf images page_num = Ok (text, imgs, qs) ->
  images page_num = Ok imgs /\
  qs = parse_questions_from_text text imgs page_num.
Proof.
  unfold extract_page_content, bind.
  destruct (tp page_num) as [t|]; [|discriminate].
  destruct (if is_empty (strip t) then mupdf page_num else Ok t) as [t'|];
    [|discriminate].
  destruct (images page_num) as [imgs'|]; [|discriminate].
  intros H. injection H as <- <- <-. now split.
Qed.

(** X15.  The images of a page: one path for each image of at least 20
    by 20 that could be read and written, named after the page and the
    index of the image in the page's image list.  The paths are not
    empty and differ from each other, and an image that fails is left
    out without failing the page. *)
Theorem extracted_images_spec get_images images_dir page_num image_list :
  get_images page_num = Ok image_list ->
  exists paths,
    extract_images_from_page get_images images_dir page_num = Ok paths /\
    paths = map (img_path images_dir page_num) (kept_indices 0 image_list) /\
    NoDup paths /\
    Forall (fun path => path <> EmptyString) paths /\
    length paths <= length image_list.
Proof.
  intros H. unfold extract_images_from_page, bind. rewrite H.
  eexists. split; [reflexivity|]. apply extract_images_loop_spec.
Qed.

Lemma extracted_images_spec_witness :
  exists paths,
    extract_images_from_page
      (fun _ => Ok [Ok (Pix.mkPixmap 10 300 3 0 true true);
                    Raise "bad xref";
                    Ok (Pix.mkPixmap 64 64 4 0 true true)])
      "out/images" 0 = Ok paths /\
    paths = ["out/images/page1_image3.png"].
Proof.
  destruct (extracted_images_spec
              (fun _ => Ok [Ok (Pix.mkPixmap 10 300 3 0 true true);
                            Raise "bad xref";
                            Ok (Pix.mkPixmap 64 64 4 0 true true)])
              "out/images" 0
              [Ok (Pix.mkPixmap 10 300 3 0 true true);
               Raise "bad xref";
               Ok (Pix.mkPixmap 64 64 4 0 true true)] eq_refl)
    as (paths & H1 & H2 & _).
  exists paths. split; [exact H1 | exact H2].
Defined.

(** X16.  The text of a page is the text of pdfplumber when pdfplumber
    gives one that is not blank, and the text of PyMuPDF in every other
    case: pdfplumber fails, has no such page, or gives nothing.  A
    failure of pdfplumber alone does not fail the page. *)
Theorem page_text_source plumber mupdf images page_num :
  extract_page_content (extract_text_with_pdfplumber plumber mupdf)
                       mupdf images page_num =
  (page_text <- match plumber_text plumber page_num with
                | Some s => Ok s
                | None => mupdf page_num
                end ;;
   page_images <- images page_num ;;
   Ok (page_text, page_images,
       parse_questions_from_text page_text page_images page_num)).
Proof.
  unfold extract_page_content, extract_text_with_pdfplumber, plumber_text.
  assert (Hm : forall (B : Type) (k : string -> result B),
             bind (mupdf page_num)
                  (fun t => bind (if is_empty (strip t)
                                  then mupdf page_num else Ok t) k) =
             bind (mupdf page_num) k).
  { intros B k. destruct (mupdf page_num) as [t|e] eqn:E; cbn [bind];
      [|reflexivity].
    now destruct (is_empty (strip t)). }
  destruct (plumber page_num) as [pages|e].
  - destruct (nth_error pages page_num) as [[[s|]|e]|].
    + destruct s as [|c s']; cbn [is_empty bind].
      * reflexivity.
      * now destruct (is_empty (strip (String c s'))).
    + reflexivity.
    + apply Hm.
    + reflexivity.
  - apply Hm.
Qed.

(** X17.  For a page read with [extract_images_from_page], the images
    of its records, in question order, are the first [m*k] paths of the
    page, where [m >= 1] is the number of records and
    [k = max(1, n // m)]. *)
Theorem page_records_hold_a_prefix
  tp mupdf get_images images_dir page_num text imgs qs :
  extract_page_content tp mupdf
    (extract_images_from_page get_images images_dir) page_num
  = Ok (text, imgs, qs) ->
  qs <> [] ->
  flat_map image_list qs =
  firstn (length qs * Nat.max 1 (length imgs / length qs)) imgs.
Proof.
  intros H Hne.
  apply extract_page_content_ok in H as [Hi ->].
  unfold parse_questions_from_text in *.
  rewrite parse_lines_associate in *.
  assert (Himgs : Forall (fun path => path <> EmptyString) imgs).
  { unfold extract_images_from_page, bind in Hi.
    destruct (get_images page_num) as [l|]; [|discriminate].
    injection Hi as <-. apply extract_images_loop_spec. }
  rewrite associate_images_length in *.
  apply image_list_associate; [|apply scan_loop_no_images; constructor
                                |exact Himgs].
  intros E. apply Hne. now rewrite E.
Qed.

Lemma page_records_hold_a_prefix_witness :
  flat_map image_list
    [mkQuestion (Some 1%N) "x" [] None 1 "d/page1_image1.png"
                ["d/page1_image2.png"]]
  = firstn (1 * Nat.max 1 (2 / 1))
           ["d/page1_image1.png"; "d/page1_image2.png"].
Proof.
  apply (page_records_hold_a_prefix
           (fun _ => Ok "1. x") (fun _ => Ok EmptyString)
           (fun _ => Ok [Ok (Pix.mkPixmap 64 64 3 0 true true);
                         Ok (Pix.mkPixmap 64 64 3 0 true true)])
           "d" 0 "1. x"
           ["d/page1_image1.png"; "d/page1_image2.png"]).
  - reflexivity.
  - discriminate.
Defined.

(* ===================================================================== *)
(** ** The document: further properties *)
(* ===================================================================== *)

Section DocumentOrder.

Variable extract_text_with_pdfplumber : nat -> result string.
Variable extract_text_from_page : nat -> result string.
Variable extract_images_from_page : nat -> result (list string).
Variable page_count : nat.

Let content :=
  extract_page_content extract_text_with_pdfplumber extract_text_from_page
                       extract_images_from_page.
Let records :=
  page_records extract_text_with_pdfplumber extract_text_from_page
               extract_images_from_page.
Let image_total :=
  page_image_count extract_text_with_pdfplumber extract_text_from_page
                   extract_images_from_page.
Let run :=
  extract_all_content extract_text_with_pdfplumber extract_text_from_page
                      extract_images_from_page page_count.

Lemma page_records_page p :
  Forall (fun q => page q = p + 1) (records p).
Proof.
  unfold records, page_records. fold content.
  destruct (content p) as [[[text imgs] qs]|e] eqn:E; [|constructor].
  apply extract_page_content_ok in E as [_ ->].
  unfold parse_questions_from_text.
  apply (Forall_by_core
           (fun c => let '(_, _, _, _, pg) := c in pg = p + 1)
           _ _ (parse_lines_core _ imgs p)).
  eapply Forall_impl; [|apply scan_lines_wellformed].
  now intros q [H _].
Qed.

Lemma StronglySorted_app (l1 l2 : list nat) :
  StronglySorted le l1 -> StronglySorted le l2 ->
  (forall x y, In x l1 -> In y l2 -> x <= y) ->
  StronglySorted le (l1 ++ l2).
Proof.
  intros H1 H2 H. induction H1 as [|x l1 Hs IH Hx]; [exact H2|].
  cbn [app]. constructor.
  - apply IH. intros a b Ha Hb. apply H; [now right | exact Hb].
  - apply Forall_app. split; [exact Hx|].
    apply Forall_forall. intros y Hy. apply H; [now left | exact Hy].
Qed.

Lemma flat_map_records_sorted len :
  forall start,
    StronglySorted le (map page (flat_map records (seq start len))) /\
    Forall (fun pg => start + 1 <= pg)
           (map page (flat_map records (seq start len))).
Proof.
  induction len as [|len IH]; intros start.
  - split; constructor.
  - cbn [seq flat_map]. rewrite map_app.
    destruct (IH (S start)) as [Hs Hb].
    pose proof (page_records_page start) as Hp.
    assert (Hpm : Forall (fun pg => pg = start + 1)
                         (map page (records start))).
    { apply Forall_map. exact Hp. }
    split.
    + apply StronglySorted_app; [|exact Hs|].
      * clear -Hpm. induction Hpm as [|x l Hx Hl IH]; constructor;
          [exact IH|].
        subst x. eapply Forall_impl; [|exact Hl]. intros y ->. lia.
      * intros x y Hx Hy. rewrite Forall_forall in Hpm, Hb.
        specialize (Hpm _ Hx). specialize (Hb _ Hy). cbv beta in *. lia.
    + apply Forall_app. split.
      * eapply Forall_impl; [|exact Hpm]. cbv beta. intros; lia.
      * eapply Forall_impl; [|exact Hb]. cbv beta. intros; lia.
Qed.

(** X18.  The records of the document are in page order: the page of a
    record is never above the page of a record after it. *)
Theorem records_in_page_order :
  StronglySorted le (map page (fst run)).
Proof.
  destruct (extract_all_content_spec extract_text_with_pdfplumber
              extract_text_from_page extract_images_from_page page_count)
    as (H1 & _).
  unfold run. rewrite H1. apply flat_map_records_sorted.
Qed.

Lemma assigned_total_app l1 l2 :
  assigned_total (l1 ++ l2) = assigned_total l1 + assigned_total l2.
Proof.
  unfold assigned_total. now rewrite map_app, list_sum_app.
Qed.

Hypothesis paths_not_empty :
  forall p imgs,
    extract_images_from_page p = Ok imgs ->
    Forall (fun img => img <> EmptyString) imgs.

Lemma page_assigned_le_seen p :
  assigned_total (records p) <= image_total p.
Proof.
  unfold records, page_records, image_total, page_image_count.
  fold content.
  destruct (content p) as [[[text imgs] qs]|e] eqn:E; [|constructor].
  apply extract_page_content_ok in E as [Hi ->].
  unfold parse_questions_from_text. rewrite parse_lines_associate.
  destruct (scan_lines (lines_of_text text) p) as [|q0 qs0] eqn:Es.
  - cbn. lia.
  - rewrite assigned_total_associate;
      [lia | discriminate | | now apply (paths_not_empty p)].
    rewrite <- Es. apply scan_loop_no_images. constructor.
Qed.

(** X19.  [total_images] counts the images seen on the pages, which is
    at least the number of images the records hold. *)
Theorem assigned_images_at_most_seen :
  assigned_total (fst run) <= total_images (snd run).
Proof.
  destruct (extract_all_content_spec extract_text_with_pdfplumber
              extract_text_from_page extract_images_from_page page_count)
    as (H1 & _ & _ & H4 & _).
  unfold run. rewrite H1, H4. clear H1 H4.
  generalize (seq 0 page_count) as ps.
  induction ps as [|p ps IH]; [constructor|].
  cbn [flat_map map]. rewrite assigned_total_app.
  pose proof (page_assigned_le_seen p) as Hp.
  unfold records, image_total in *. unfold list_sum in *.
  cbn [fold_right]. lia.
Qed.

End DocumentOrder.

Lemma assigned_images_at_most_seen_witness :
  assigned_total
    (fst (extract_all_content sample_plumber sample_mupdf sample_images 5))
  <= total_images
       (snd (extract_all_content sample_plumber sample_mupdf
                                 sample_images 5)).
Proof.
  apply (assigned_images_at_most_seen
           sample_plumber sample_mupdf sample_images 5).
  intros p imgs H. unfold sample_images in H. injection H as <-.
  constructor; [|constructor]. discriminate.
Defined.

(* ===================================================================== *)
(** ** The simple output format: properties *)
(* ===================================================================== *)

(** X20.  The simple format loses nothing of a record that has a
    non-zero question number, no empty answer and a page: two such
    records with the same [formatted_q] are the same record. *)
Theorem formatted_q_lossless q1 q2 :
  exportable q1 -> exportable q2 ->
  formatted_q q1 = formatted_q q2 -> q1 = q2.
Proof.
  destruct q1 as [n1 t1 o1 a1 p1 i1 oi1], q2 as [n2 t2 o2 a2 p2 i2 oi2].
  unfold exportable, formatted_q.
  cbn [question_number question options answer page images option_images].
  intros (Ha1 & Hz1 & Hn1 & Hp1) (Ha2 & Hz2 & Hn2 & Hp2).
  destruct n1 as [n1|]; [|now elim Hn1].
  destruct n2 as [n2|]; [|now elim Hn2].
  assert (E1 : (n1 =? 0)%N = false)
    by (apply N.eqb_neq; intros ->; now elim Hz1).
  assert (E2 : (n2 =? 0)%N = false)
    by (apply N.eqb_neq; intros ->; now elim Hz2).
  apply Nat.eqb_neq in Hp1, Hp2. rewrite E1, E2, Hp1, Hp2.
  assert (A1 : forall s, a1 = Some s -> is_empty s = false).
  { intros [|c s] ->; [now elim Ha1 | reflexivity]. }
  assert (A2 : forall s, a2 = Some s -> is_empty s = false).
  { intros [|c s] ->; [now elim Ha2 | reflexivity]. }
  destruct a1 as [s1|]; [rewrite (A1 _ eq_refl)|];
    (destruct a2 as [s2|]; [rewrite (A2 _ eq_refl)|]);
    destruct o1 as [|x1 o1]; destruct o2 as [|x2 o2];
    cbn [app]; intros H; injection H; intros; subst;
    try discriminate;
    match goal with
    | E : N.of_nat _ = N.of_nat _ |- _ => apply Nat2N.inj in E; subst
    end; reflexivity.
Qed.

Lemma formatted_q_lossless_witness :
  mkQuestion (Some 3%N) "x" ["[A] y"] None 2 "img" [] =
  mkQuestion (Some 3%N) "x" ["[A] y"] None 2 "img" [].
Proof.
  apply formatted_q_lossless.
  - repeat split; discriminate.
  - repeat split; discriminate.
  - reflexivity.
Defined.

(* ===================================================================== *)
(** ** Question numbers *)
(* ===================================================================== *)

Section QuestionNumbers.

Lemma int_of_digits_from_uint d :
  forall acc,
    int_of_digits_from (N.of_nat acc) (NilEmpty.string_of_uint d) =
    N.of_nat (Nat.of_uint_acc d acc).
Proof.
  induction d; intros acc;
    cbn [NilEmpty.string_of_uint int_of_digits_from Nat.of_uint_acc];
    [reflexivity | ..];
    rewrite <- IHd; f_equal; rewrite Nat.tail_mul_spec;
    unfold digit_value; cbn [N_of_ascii N_of_digits]; lia.
Qed.

(** [int] reads back what [str] prints. *)
Lemma int_of_digits_str_of_nat i : int_of_digits (str_of_nat i) = N.of_nat i.
Proof.
  unfold int_of_digits, str_of_nat.
  change 0%N with (N.of_nat 0).
  rewrite (int_of_digits_from_uint (Nat.to_uint i) 0).
  fold (Nat.of_uint (Nat.to_uint i)).
  now rewrite DecimalNat.Unsigned.of_to.
Qed.

Lemma str_of_nat_head i :
  exists d ds, str_of_nat i = String d ds /\ is_digit d = true.
Proof.
  pose proof (str_of_nat_digits i) as Hd.
  destruct (str_of_nat i) as [|d ds] eqn:E.
  - exfalso. assert (H0 : str_of_nat i = str_of_nat 0 -> False).
    { intros H. apply str_of_nat_inj in H. subst i. discriminate E. }
    unfold str_of_nat in E.
    pose proof (NilEmpty.usu (Nat.to_uint i)) as Hu. rewrite E in Hu.
    cbn in Hu. injection Hu as Hu.
    pose proof (DecimalNat.Unsigned.of_to i) as Ho. rewrite <- Hu in Ho.
    cbn in Ho. subst i. discriminate E.
  - cbn in Hd. apply andb_true_iff in Hd as [Hd _]. now exists d, ds.
Qed.

Lemma digit_not_space d : is_digit d = true -> is_space d = false.
Proof.
  destruct d as [[] [] [] [] [] [] [] []]; vm_compute; congruence.
Qed.

Lemma span_all (p : ascii -> bool) s :
  forallb p (chars s) = true -> span p s = (s, EmptyString).
Proof.
  induction s as [|c s IH]; [reflexivity|].
  cbn. intros H. apply andb_true_iff in H as [Hc Hs].
  now rewrite Hc, (IH Hs).
Qed.

Lemma stripped_head text :
  text <> EmptyString -> strip text = text ->
  exists c t, text = String c t /\ is_space c = false /\
              rstrip text = text.
Proof.
  intros Hne Hs. pose proof (strip_head text) as Hh. rewrite Hs in Hh.
  destruct text as [|c t]; [now elim Hne|].
  exists c, t. repeat split; [exact Hh|].
  unfold strip in Hs. now rewrite (lstrip_fixed _ _ Hh) in Hs.
Qed.

End QuestionNumbers.

(** X21.  A line made of a number as [str] prints it, a period, a space
    and a text gives a record with that number and that text. *)
Theorem printed_number_read_back i text page_num :
  text <> EmptyString ->
  strip text = text ->
  forallb (fun c => negb (is_newline c)) (chars text) = true ->
  scan_lines [(str_of_nat i ++ ". " ++ text)%string] page_num =
  [mkQuestion (Some (N.of_nat i)) text [] None (page_num + 1) "" []].
Proof.
  intros Hne Hs Hnl.
  destruct (stripped_head text Hne Hs) as (c & t & Ht & Hc & Hr).
  destruct (str_of_nat_head i) as (d & ds & Hd & Hdig).
  set (line := (str_of_nat i ++ ". " ++ text)%string).
  assert (Hline : strip line = line).
  { assert (Hb : line = ((String d ds ++ ". ") ++ text)%string).
    { unfold line. rewrite Hd. now rewrite append_assoc. }
    rewrite Hb. unfold strip.
    change ((String d ds ++ ". ") ++ text)%string
      with (String d ((ds ++ ". ") ++ text))%string at 1.
    rewrite lstrip_fixed by (now apply digit_not_space).
    change (String d ((ds ++ ". ") ++ text))%string
      with ((String d ds ++ ". ") ++ text)%string.
    rewrite rstrip_app_keep; rewrite Hr; [reflexivity | exact Hne]. }
  assert (Hm : question_match (strip line) = Some (str_of_nat i, text)).
  { rewrite Hline. unfold line, question_match.
    rewrite span_digits_app; [| apply str_of_nat_digits | reflexivity].
    rewrite Hd at 1. cbn [is_empty].
    rewrite Ht at 1. cbn [append span]. change (is_space " ") with true.
    cbv iota. rewrite Hc. cbn [is_empty].
    rewrite <- Ht. unfold upto_newline.
    now rewrite (span_all _ _ Hnl). }
  assert (Hk : skipped line = false).
  { apply question_start_not_skipped. unfold is_question_start.
    now rewrite Hm. }
  unfold scan_lines. rewrite (scan_loop_question _ _ _ _ _ _ Hk Hm).
  cbn. now rewrite Hs, int_of_digits_str_of_nat.
Qed.

Lemma printed_number_read_back_witness :
  scan_lines [(str_of_nat 12 ++ ". " ++ "What is 2+2?")%string] 0 =
  [mkQuestion (Some (N.of_nat 12)) "What is 2+2?" [] None (0 + 1) "" []].
Proof.
  apply (printed_number_read_back 12 "What is 2+2?" 0).
  - discriminate.
  - reflexivity.
  - reflexivity.
Defined.

(* ===================================================================== *)
(** ** Runs without failure and runs with nothing but failures *)
(* ===================================================================== *)

Section RunEdges.

Variable extract_text_with_pdfplumber : nat -> result string.
Variable extract_text_from_page : nat -> result string.
Variable extract_images_from_page : nat -> result (list string).
Variable page_count : nat.

Let failed :=
  page_failed extract_text_with_pdfplumber extract_text_from_page
              extract_images_from_page.
Let run :=
  extract_all_content extract_text_with_pdfplumber extract_text_from_page
                      extract_images_from_page page_count.

Lemma pages_all_failed ps :
  (forall p, In p ps -> failed p = true) ->
  flat_map (page_records extract_text_with_pdfplumber
              extract_text_from_page extract_images_from_page) ps = [] /\
  filter (fun p => negb (failed p)) ps = [] /\
  list_sum (map (page_image_count extract_text_with_pdfplumber
                   extract_text_from_page extract_images_from_page) ps)
    = 0 /\
  length (flat_map (page_errors extract_text_with_pdfplumber
                      extract_text_from_page extract_images_from_page) ps)
    = length ps.
Proof.
  induction ps as [|p ps IH]; intros Hin; [now repeat split|].
  assert (Hp : failed p = true) by (apply Hin; now left).
  destruct IH as (I1 & I2 & I3 & I4); [intros q Hq; apply Hin; now right|].
  cbn [flat_map filter map length]. rewrite Hp, I1, I2. cbn [negb].
  unfold failed, page_failed, page_records, page_image_count, page_errors
    in *.
  destruct (extract_page_content _ _ _ p); [discriminate|].
  cbn [app length]. repeat split.
  - unfold list_sum in *. cbn [fold_right]. now rewrite I3.
  - now rewrite I4.
Qed.

Lemma pages_none_failed ps :
  (forall p, In p ps -> failed p = false) ->
  flat_map (page_errors extract_text_with_pdfplumber
              extract_text_from_page extract_images_from_page) ps = [] /\
  length (filter (fun p => negb (failed p)) ps) = length ps.
Proof.
  induction ps as [|p ps IH]; intros Hin; [now split|].
  assert (Hp : failed p = false) by (apply Hin; now left).
  destruct IH as (I1 & I2); [intros q Hq; apply Hin; now right|].
  cbn [flat_map filter length]. rewrite Hp, I1. cbn [negb length].
  unfold failed, page_failed, page_errors in *.
  destruct (extract_page_content _ _ _ p); [|discriminate].
  split; [reflexivity | now rewrite I2].
Qed.

(** X22.  When every page fails the run still ends: no record, no page
    processed, no image counted, and one error for each page. *)
Theorem run_with_only_failures :
  (forall p, p < page_count -> failed p = true) ->
  fst run = [] /\
  pages_processed (snd run) = 0 /\
  total_questions (snd run) = 0 /\
  total_images (snd run) = 0 /\
  length (extraction_errors (snd run)) = page_count.
Proof.
  intros Hall.
  destruct (extract_all_content_spec extract_text_with_pdfplumber
              extract_text_from_page extract_images_from_page page_count)
    as (H1 & H2 & H3 & H4 & _ & H6).
  fold run in H1, H2, H3, H4, H6. fold failed in H3.
  destruct (pages_all_failed (seq 0 page_count)) as (I1 & I2 & I3 & I4).
  { intros p Hp. apply in_seq in Hp. apply Hall. lia. }
  rewrite H6, H1, H2, H3, H4, I1, I2, I3, I4, length_seq.
  now repeat split.
Qed.

(** X23.  When no page fails there is no error and every page is
    processed. *)
Theorem run_without_failure :
  (forall p, p < page_count -> failed p = false) ->
  extraction_errors (snd run) = [] /\
  pages_processed (snd run) = page_count.
Proof.
  intros Hall.
  destruct (extract_all_content_spec extract_text_with_pdfplumber
              extract_text_from_page extract_images_from_page page_count)
    as (_ & H2 & H3 & _).
  fold run in H2, H3. fold failed in H3.
  destruct (pages_none_failed (seq 0 page_count)) as (I1 & I2).
  { intros p Hp. apply in_seq in Hp. apply Hall. lia. }
  rewrite H2, H3, I1, I2, length_seq. now split.
Qed.

End RunEdges.

Lemma run_with_only_failures_witness :
  fst (extract_all_content (fun _ => Raise "closed") sample_mupdf
                           sample_images 3) = [] /\
  length (extraction_errors
            (snd (extract_all_content (fun _ => Raise "closed") sample_mupdf
                                      sample_images 3))) = 3.
Proof.
  destruct (run_with_only_failures (fun _ => Raise "closed") sample_mupdf
                                   sample_images 3)
    as (H1 & _ & _ & _ & H5).
  - intros p _. reflexivity.
  - split; [exact H1 | exact H5].
Defined.

Lemma run_without_failure_witness :
  extraction_errors
    (snd (extract_all_content (fun _ => Ok "1. x") sample_mupdf
                              sample_images 3)) = [] /\
  pages_processed
    (snd (extract_all_content (fun _ => Ok "1. x") sample_mupdf
                              sample_images 3)) = 3.
Proof.
  apply (run_without_failure (fun _ => Ok "1. x") sample_mupdf
                             sample_images 3).
  intros p _. reflexivity.
Defined.

(* ===================================================================== *)
(** ** The report: questions per page *)
(* ===================================================================== *)

Section Report.

Lemma dict_get_incr key key' d :
  dict_get key' (dict_incr key d) =
  dict_get key' d + (if key =? key' then 1 else 0).
Proof.
  induction d as [|[k v] d IH]; cbn [dict_incr dict_get].
  - rewrite Nat.add_0_l. reflexivity.
  - destruct (k =? key) eqn:E; cbn [dict_get].
    + apply Nat.eqb_eq in E. subst k.
      destruct (key =? key'); lia.
    + destruct (k =? key') eqn:E'; [|exact IH].
      apply Nat.eqb_eq in E'. subst k. rewrite Nat.eqb_sym in E.
      rewrite E. lia.
Qed.

Lemma dict_incr_keys key d :
  NoDup (map fst d) -> NoDup (map fst (dict_incr key d)) /\
  forall k, In k (map fst (dict_incr key d)) <-> k = key \/ In k (map fst d).
Proof.
  induction d as [|[k v] d IH]; cbn [dict_incr map fst]; intros Hn.
  - split; [repeat constructor; now intros [] |].
    intros k. cbn. intuition.
  - inversion Hn as [|? ? Hk Hd]; subst.
    destruct (k =? key) eqn:E; cbn [map fst].
    + apply Nat.eqb_eq in E. subst k. split; [exact Hn|].
      intros k. cbn. intuition.
    + destruct (IH Hd) as [I1 I2]. split.
      * constructor; [|exact I1]. rewrite I2. intros [->|H].
        -- now rewrite Nat.eqb_refl in E.
        -- contradiction.
      * intros k'. cbn. rewrite I2. intuition.
Qed.

Lemma fold_dict_incr qs :
  forall d,
    NoDup (map fst d) ->
    let d' := fold_left (fun d q => dict_incr (page q) d) qs d in
    NoDup (map fst d') /\
    forall p,
      dict_get p d' =
      dict_get p d + length (filter (fun q => page q =? p) qs).
Proof.
  induction qs as [|q qs IH]; intros d Hd; cbn [fold_left filter].
  - split; [exact Hd | intros p; cbn; lia].
  - destruct (dict_incr_keys (page q) d Hd) as [Hn _].
    destruct (IH _ Hn) as [I1 I2]. split; [exact I1|].
    intros p. rewrite I2, dict_get_incr.
    destruct (page q =? p); cbn [length]; lia.
Qed.

End Report.

(** X24.  In the report each page is counted once, and the count of a
    page is the number of records of that page; a page without record
    has count 0. *)
Theorem pages_with_questions_counts qs :
  NoDup (map fst (pages_with_questions qs)) /\
  forall p,
    dict_get p (pages_with_questions qs) =
    length (filter (fun q => page q =? p) qs).
Proof.
  unfold pages_with_questions.
  destruct (fold_dict_incr qs [] (NoDup_nil _)) as [H1 H2].
  split; [exact H1|]. intros p. now rewrite H2.
Qed.
